(** * Syncer: the stream ingestion and stage-progression engine

    A shallow embedding of the packet engine of the Syncer front-end
    ([src/hooks/useSomniaStreams.ts] and the polling-only hook kept in
    [src/types/stream.ts]) and the properties of it that the design
    document states, followed by the two consumers of the collection, the
    grid of capsules ([src/components/ConsensusFeed.tsx]) and the activity
    log ([TerminalLog]), and further properties of all of them.

    Conventions of the embedding:
    - a JavaScript [number] that holds a time, a counter or an index is a
      [Z]; the decoded transaction value is a binary64 [float];
    - a [bigint] is a [Z];
    - an optional or possibly falsy field is an [option];
    - the React state updaters [setStreams (prev => ...)] are functions from
      the previous collection to the next one; a tick runs to completion;
    - [Date.now()] and the replies of the block source are inputs of a tick;
    - the statistics ([setStats]) are display-only and left out. *)

From Stdlib Require Import ZArith Lia Ascii String.
From Stdlib Require Import Floats.PrimFloat Floats.SpecFloat Floats.FloatOps.
From Stdlib Require Import Numbers.DecimalString.
From stdpp Require Import base list strings gmap.

Set Warnings "-inexact-float".

Local Open Scope string_scope.
Local Open Scope list_scope.
Local Open Scope Z_scope.

(** ** Constants *)

Definition STAGE_DURATION : Z := 300.
Definition MAX_STREAMS : Z := 100.
Definition MAX_TX_PER_BLOCK : Z := 50.

(** ** Data model ([src/types/stream.ts]) *)

Inductive StreamStatus : Type :=
  | streamed
  | indexed
  | consolidated
  | finalized.

Global Instance StreamStatus_eq_dec : EqDecision StreamStatus.
Proof. solve_decision. Defined.

(** A value of the free-form [data] payload.  [DAmount v sym] stands for the
    template string [`${v.toFixed(6)} ${sym}`]; its decimal rendering is not
    expanded. *)
Inductive DataValue : Type :=
  | DStr (s : string)
  | DAmount (v : float) (sym : string)
  | DUndefined.

Record StreamPacket : Type := mkPacket {
  id : string;
  status : StreamStatus;
  timestamp : Z;
  eventType : string;
  source : string;
  data : list (string * DataValue);
  confirmations : Z;
  hash : string;
  lastStageTime : Z;
  blockNumber : Z
}.

Inductive ConnectionStatus : Type :=
  | connecting
  | connected
  | polling
  | error
  | disconnected.

Inductive ConnectionMethod : Type :=
  | websocket
  | http
  | none.

Record ConnectionInfo : Type := mkConn {
  conn_status : ConnectionStatus;
  conn_method : ConnectionMethod;
  conn_error : option string;
  conn_lastBlockTime : option Z;
  networkName : string;
  rpcUrl : string
}.

(** ** The insertion-ordered [Map<string, V>] of JavaScript

    [set] on a key that is present replaces the value in place and keeps the
    position of the key; on a new key it appends.  [values] lists the values
    in insertion order. *)
Module JsMap.
Section Ops.
Context {V : Type}.

Definition t : Type := list (string * V).

Definition empty : t := [].

Fixpoint has (k : string) (m : t) : bool :=
  match m with
  | [] => false
  | (k', _) :: r => if String.eqb k k' then true else has k r
  end.

Fixpoint get (k : string) (m : t) : option V :=
  match m with
  | [] => None
  | (k', v) :: r => if String.eqb k k' then Some v else get k r
  end.

Fixpoint set (k : string) (v : V) (m : t) : t :=
  match m with
  | [] => [(k, v)]
  | (k', v') :: r =>
      if String.eqb k k' then (k, v) :: r else (k', v') :: set k v r
  end.

Definition keys (m : t) : list string := m.*1.
Definition values (m : t) : list V := m.*2.
End Ops.
Arguments t : clear implicits.
End JsMap.

(** ** Packet model: status order and successor *)

(* getNextStatus *)
Definition getNextStatus (currentStatus : StreamStatus) : StreamStatus :=
  match currentStatus with
  | streamed => indexed
  | indexed => consolidated
  | consolidated => finalized
  | finalized => finalized
  end.

(* the [statusOrder] table of deduplicateStreams *)
Definition statusOrder (s : StreamStatus) : Z :=
  match s with
  | streamed => 0
  | indexed => 1
  | consolidated => 2
  | finalized => 3
  end.

(** ** Deduplication ([deduplicateStreams]) *)

(* one iteration of the [for (const stream of streams)] loop *)
Definition dedupStep (seen : JsMap.t StreamPacket) (stream : StreamPacket)
  : JsMap.t StreamPacket :=
  if negb (JsMap.has (id stream) seen) then
    JsMap.set (id stream) stream seen
  else
    match JsMap.get (id stream) seen with
    | Some existing =>
        if statusOrder (status stream) >? statusOrder (status existing)
        then JsMap.set (id stream) stream seen
        else seen
    | None => seen
    end.

Definition dedupSeen (streams : list StreamPacket) : JsMap.t StreamPacket :=
  fold_left dedupStep streams JsMap.empty.

Definition deduplicateStreams (streams : list StreamPacket)
  : list StreamPacket :=
  JsMap.values (dedupSeen streams).

(** ** Transactions and blocks as the block source returns them *)

Record Tx : Type := mkTx {
  tx_hash : option string;
  tx_value : option Z;        (* bigint, in wei *)
  tx_from : option string;
  tx_to : option string;
  tx_gas : option Z
}.

Record Block : Type := mkBlock {
  blk_hash : option string;
  blk_number : option Z;
  blk_transactions : list Tx
}.

Record NetworkConfig : Type := mkConfig {
  chainName : string;
  cfg_rpcUrl : string;
  currencySymbol : string     (* nativeCurrency.symbol *)
}.

(* src/lib/somnia-config.ts *)
Definition somniaTestnet : NetworkConfig :=
  mkConfig "Somnia Testnet (Shannon)" "https://dream-rpc.somnia.network" "STT".
Definition somniaMainnet : NetworkConfig :=
  mkConfig "Somnia Mainnet" "https://api.infra.mainnet.somnia.network" "SOMI".

(** ** JavaScript helpers *)

(* [s || d] on an optional string: undefined, null and the empty string are
   falsy *)
Definition js_or (o : option string) (d : string) : string :=
  match o with
  | Some s => if String.eqb s "" then d else s
  | None => d
  end.

(* truthiness of an optional string *)
Definition js_truthy (o : option string) : bool :=
  match o with
  | Some s => negb (String.eqb s "")
  | None => false
  end.

Definition lowerAscii (c : ascii) : ascii :=
  let n := N_of_ascii c in
  if ((65 <=? n) && (n <=? 90))%N then ascii_of_N (n + 32) else c.

(* [String.prototype.toLowerCase] on ASCII text (hashes are hex strings) *)
Fixpoint toLowerCase (s : string) : string :=
  match s with
  | EmptyString => EmptyString
  | String c r => String (lowerAscii c) (toLowerCase r)
  end.

(* decimal rendering of an integer-valued number in a template string *)
Definition numToString (z : Z) : string := NilZero.string_of_int (Z.to_int z).

(* [Number(b)] for a bigint [b]: the nearest binary64 value, ties to even *)
Definition Number (b : Z) : float :=
  SF2Prim (binary_normalize prec emax b 0 false).

(** ** Ingestion: transaction to packet *)

Inductive Hook : Type :=
  | WatchHook      (* src/hooks/useSomniaStreams.ts: onBlock and pollBlocks *)
  | PollingHook.   (* the polling-only hook kept in src/types/stream.ts *)

(* const txValue = tx.value ? Number(tx.value) / 1e18 : 0 *)
Definition txValue (tx : Tx) : float :=
  match tx_value tx with
  | Some v => if v =? 0 then 0%float else (Number v / 1e18)%float
  | None => 0%float
  end.

(* const isHighValue = txValue > 0.01 *)
Definition isHighValue (tx : Tx) : bool := (0.01 <? txValue tx)%float.

Definition syntheticId (now : Z) (index : nat) : string :=
  "tx_" +:+ numToString now +:+ "_" +:+ numToString (Z.of_nat index).

Definition txId (now : Z) (index : nat) (tx : Tx) : string :=
  toLowerCase (js_or (tx_hash tx) (syntheticId now index)).

Definition optStr (o : option string) : DataValue :=
  match o with
  | Some s => DStr s
  | None => DUndefined
  end.

Definition txData (h : Hook) (cfg : NetworkConfig) (block : Block) (tx : Tx)
  : list (string * DataValue) :=
  [ ("to", DStr (js_or (tx_to tx) "Contract Creation"));
    ("value", DAmount (txValue tx) (currencySymbol cfg));
    ("gas", DStr (match tx_gas tx with
                  | Some g => numToString g
                  | None => "N/A"
                  end));
    ("type", DStr (if js_truthy (tx_to tx) then "Transfer"
                   else "Contract Deploy")) ]
  ++ match h with
     | WatchHook => []
     | PollingHook =>
         [ ("txHash", optStr (tx_hash tx));
           ("blockHash", optStr (blk_hash block)) ]
     end.

(* the callback of [txsToShow.map((tx, index) => ...)] *)
Definition txToPacket (h : Hook) (cfg : NetworkConfig) (now : Z)
    (block : Block) (index : nat) (tx : Tx) : StreamPacket :=
  {| id := txId now index tx;
     status := streamed;
     timestamp := now;
     eventType := if isHighValue tx then "Transfer" else "Transaction";
     source := js_or (tx_from tx) "0x0";
     data := txData h cfg block tx;
     confirmations := 0;
     hash := txId now index tx;
     lastStageTime := now;
     blockNumber := default 0 (blk_number block) |}.

Definition txsToShow (block : Block) : list Tx :=
  take (Z.to_nat MAX_TX_PER_BLOCK) (blk_transactions block).

Definition newStreams (h : Hook) (cfg : NetworkConfig) (now : Z)
    (block : Block) : list StreamPacket :=
  imap (txToPacket h cfg now block) (txsToShow block).

(** ** Ingestion: the [setStreams] updater *)

Definition mergeStreams (newStreams prev : list StreamPacket)
  : list StreamPacket :=
  let existingIds : gset string := list_to_set (id <$> prev) in
  let uniqueNewStreams := filter (λ s, id s ∉ existingIds) newStreams in
  if Z.of_nat (length uniqueNewStreams) >? 0 then
    take (Z.to_nat MAX_STREAMS)
         (deduplicateStreams (uniqueNewStreams ++ prev))
  else prev.

(* what processing one fetched block does to the collection; an empty block
   does not reach [setStreams] *)
Definition ingestBlock (h : Hook) (cfg : NetworkConfig) (now : Z)
    (block : Block) (prev : list StreamPacket) : list StreamPacket :=
  if Z.of_nat (length (txsToShow block)) >? 0 then
    mergeStreams (newStreams h cfg now block) prev
  else prev.

(** ** Progression ([progressionInterval]) *)

(* the callback of [updatedStreams.map((stream) => ...)] *)
Definition progressPacket (now : Z) (stream : StreamPacket) : StreamPacket :=
  if decide (status stream = finalized) then
    {| id := id stream; status := status stream;
       timestamp := timestamp stream; eventType := eventType stream;
       source := source stream; data := data stream;
       confirmations := 3;
       hash := hash stream; lastStageTime := lastStageTime stream;
       blockNumber := blockNumber stream |}
  else if negb (lastStageTime stream =? 0)
          && (now - lastStageTime stream >=? STAGE_DURATION) then
    let nextStatus := getNextStatus (status stream) in
    if decide (nextStatus ≠ status stream) then
      {| id := id stream; status := nextStatus;
         timestamp := timestamp stream; eventType := eventType stream;
         source := source stream; data := data stream;
         confirmations := confirmations stream + 1;
         hash := hash stream; lastStageTime := now;
         blockNumber := blockNumber stream |}
    else stream
  else stream.

(* updatedStreams.map((s, i) => s.status === "finalized" ? i : -1)
                 .filter((i) => i !== -1) *)
Definition finalizedIndices (l : list StreamPacket) : list Z :=
  filter (λ i, i ≠ -1)
    (imap (λ i s, if decide (status s = finalized) then Z.of_nat i else -1) l).

(* the cleanup block: splice(indexToRemove, 1) or pop() *)
Definition evictOverflow (updatedStreams : list StreamPacket)
  : list StreamPacket :=
  if Z.of_nat (length updatedStreams) >? MAX_STREAMS then
    match last (finalizedIndices updatedStreams) with
    | Some indexToRemove => delete (Z.to_nat indexToRemove) updatedStreams
    | None => removelast updatedStreams
    end
  else updatedStreams.

Definition progressionInterval (now : Z) (prevStreams : list StreamPacket)
  : list StreamPacket :=
  deduplicateStreams (evictOverflow (progressPacket now <$> prevStreams)).

(** ** The polling engines

    A tick of the ingestion loop receives the replies of the block source:
    each call either throws (with the message that the [catch] clause
    captures) or returns. *)

Inductive Reply (A : Type) : Type :=
  | Throws (message : string)
  | Returns (a : A).
Arguments Throws {A} message.
Arguments Returns {A} a.

Record BlockSource : Type := mkSource {
  getBlockNumber : Reply Z;
  getBlock : Z → Reply Block
}.

Record Engine : Type := mkEngine {
  streams : list StreamPacket;
  connectionInfo : ConnectionInfo;
  lastBlockNumber : Z           (* lastBlockNumberRef / lastProcessedBlock *)
}.

Definition initialEngine (m : ConnectionMethod) (cfg : NetworkConfig)
  : Engine :=
  {| streams := [];
     connectionInfo :=
       {| conn_status := connecting; conn_method := m;
          conn_error := None; conn_lastBlockTime := None;
          networkName := chainName cfg; rpcUrl := cfg_rpcUrl cfg |};
     lastBlockNumber := 0 |}.

(* (prev) => ({ ...prev, status: "error", error: message }) *)
Definition withError (message : string) (prev : ConnectionInfo)
  : ConnectionInfo :=
  {| conn_status := error; conn_method := conn_method prev;
     conn_error := Some message;
     conn_lastBlockTime := conn_lastBlockTime prev;
     networkName := networkName prev; rpcUrl := rpcUrl prev |}.

(* (prev) => ({ ...prev, status: st, lastBlockTime: now }) *)
Definition withStatusAt (st : ConnectionStatus) (now : Z)
    (prev : ConnectionInfo) : ConnectionInfo :=
  {| conn_status := st; conn_method := conn_method prev;
     conn_error := conn_error prev;
     conn_lastBlockTime := Some now;
     networkName := networkName prev; rpcUrl := rpcUrl prev |}.

(* (prev) => ({ ...prev, status: st, lastBlockTime: now, error: undefined }) *)
Definition withStatusCleared (st : ConnectionStatus) (now : Z)
    (prev : ConnectionInfo) : ConnectionInfo :=
  {| conn_status := st; conn_method := conn_method prev;
     conn_error := None;
     conn_lastBlockTime := Some now;
     networkName := networkName prev; rpcUrl := rpcUrl prev |}.

(* fetchAndProcessBlock of the polling-only hook (src/types/stream.ts) *)
Definition fetchAndProcessBlock (cfg : NetworkConfig) (now : Z)
    (src : BlockSource) (st : Engine) : Engine :=
  match getBlockNumber src with
  | Throws message =>
      {| streams := streams st;
         connectionInfo := withError message (connectionInfo st);
         lastBlockNumber := lastBlockNumber st |}
  | Returns latestBlockNumber =>
      if lastBlockNumber st =? 0 then
        {| streams := streams st;
           connectionInfo := withStatusAt connected now (connectionInfo st);
           lastBlockNumber := latestBlockNumber |}
      else if latestBlockNumber >? lastBlockNumber st then
        match getBlock src latestBlockNumber with
        | Throws message =>
            {| streams := streams st;
               connectionInfo := withError message (connectionInfo st);
               lastBlockNumber := lastBlockNumber st |}
        | Returns block =>
            {| streams := ingestBlock PollingHook cfg now block (streams st);
               connectionInfo :=
                 withStatusCleared connected now (connectionInfo st);
               lastBlockNumber := latestBlockNumber |}
        end
      else st
  end.

(* pollBlocks, the HTTP fallback of the watching hook
   (src/hooks/useSomniaStreams.ts) *)
Definition pollBlocks (cfg : NetworkConfig) (now : Z)
    (src : BlockSource) (st : Engine) : Engine :=
  match getBlockNumber src with
  | Throws message =>
      {| streams := streams st;
         connectionInfo := withError message (connectionInfo st);
         lastBlockNumber := lastBlockNumber st |}
  | Returns latestBlockNumber =>
      let polled := withStatusCleared polling now (connectionInfo st) in
      if lastBlockNumber st =? 0 then
        {| streams := streams st;
           connectionInfo := polled;
           lastBlockNumber := latestBlockNumber |}
      else if latestBlockNumber >? lastBlockNumber st then
        match getBlock src latestBlockNumber with
        | Throws message =>
            {| streams := streams st;
               connectionInfo := withError message polled;
               lastBlockNumber := lastBlockNumber st |}
        | Returns block =>
            {| streams := ingestBlock WatchHook cfg now block (streams st);
               connectionInfo := polled;
               lastBlockNumber := latestBlockNumber |}
        end
      else
        {| streams := streams st;
           connectionInfo := polled;
           lastBlockNumber := lastBlockNumber st |}
  end.

(* the progression timer acting on the engine *)
Definition progressEngine (now : Z) (st : Engine) : Engine :=
  {| streams := progressionInterval now (streams st);
     connectionInfo := connectionInfo st;
     lastBlockNumber := lastBlockNumber st |}.

(** ** Runs: sequences of ticks on the packet collection

    An ingestion tick that reaches [setStreams] is determined by the hook,
    the clock and the fetched block; a tick whose fetch fails or finds no
    new block leaves the collection as it is and needs no constructor. *)

Inductive Tick : Type :=
  | IngestionTick (h : Hook) (now : Z) (block : Block)
  | ProgressionTick (now : Z).

Definition applyTick (cfg : NetworkConfig) (s : list StreamPacket)
    (t : Tick) : list StreamPacket :=
  match t with
  | IngestionTick h now block => ingestBlock h cfg now block s
  | ProgressionTick now => progressionInterval now s
  end.

Definition runTicks (cfg : NetworkConfig) (ticks : list Tick)
    (s : list StreamPacket) : list StreamPacket :=
  fold_left (applyTick cfg) ticks s.

(* the collections the engine can hold: those a run produces from the empty
   collection *)
Definition reachable (cfg : NetworkConfig) (s : list StreamPacket) : Prop :=
  ∃ ticks, s = runTicks cfg ticks [].

(** ** Observations *)

(* the live packet with a given id *)
Definition lookupId (k : string) (s : list StreamPacket)
  : option StreamPacket :=
  List.find (λ p, String.eqb (id p) k) s.

Definition ids (s : list StreamPacket) : list string := id <$> s.

(* the id stays in the collection in every state of a run *)
Fixpoint liveThroughout (cfg : NetworkConfig) (k : string)
    (s : list StreamPacket) (ticks : list Tick) : Prop :=
  is_Some (lookupId k s) ∧
  match ticks with
  | [] => True
  | t :: rest => liveThroughout cfg k (applyTick cfg s t) rest
  end.

(* [p] is the packet that deduplication retains for its id from the input
   [l]: every earlier packet with that id has a strictly smaller status
   order and no later one has a greater order *)
Definition retainedFrom (l : list StreamPacket) (p : StreamPacket) : Prop :=
  ∃ l1 l2, l = l1 ++ p :: l2 ∧
    (∀ q, q ∈ l1 → id q = id p →
          statusOrder (status q) < statusOrder (status p)) ∧
    (∀ q, q ∈ l2 → id q = id p →
          statusOrder (status q) ≤ statusOrder (status p)).

(* the loop invariant of deduplicateStreams after the prefix [l] *)
Definition dedupInv (l : list StreamPacket) (m : JsMap.t StreamPacket)
  : Prop :=
  NoDup (JsMap.keys m) ∧
  (∀ k, k ∈ JsMap.keys m ↔ k ∈ ids l) ∧
  (∀ k v, (k, v) ∈ m → id v = k ∧ retainedFrom l v).

(* the shape of every collection the engine holds: one packet per id and
   no more than MAX_STREAMS packets *)
Definition wellFormed (s : list StreamPacket) : Prop :=
  NoDup (ids s) ∧ Z.of_nat (length s) ≤ MAX_STREAMS.

(* the collection after each tick of a run, in order *)
Fixpoint runStates (cfg : NetworkConfig) (ticks : list Tick)
    (s : list StreamPacket) : list (list StreamPacket) :=
  match ticks with
  | [] => []
  | t :: rest =>
      let s' := applyTick cfg s t in s' :: runStates cfg rest s'
  end.

(** ** Sample inputs *)

(* a plain transfer of [v] wei with hash [h] *)
Definition sampleTx (h : string) (v : Z) : Tx :=
  {| tx_hash := Some h; tx_value := Some v; tx_from := Some "0xF00D";
     tx_to := Some "0xBEEF"; tx_gas := Some 21000 |}.

(* a block of [n] transfers with hashes [prefix0], [prefix1], ... *)
Definition sampleBlock (number : Z) (prefix : string) (n : nat) : Block :=
  {| blk_hash := Some ("0xb" +:+ numToString number);
     blk_number := Some number;
     blk_transactions :=
       (λ i, sampleTx (prefix +:+ numToString (Z.of_nat i)) 1000) <$> seq 0 n |}.

(* one transaction is ingested and finalized by three progression ticks *)
Definition runFinalizeOne : list Tick :=
  [ IngestionTick PollingHook 1000 (sampleBlock 101 "0xa" 1);
    ProgressionTick 1400; ProgressionTick 1800; ProgressionTick 2200 ].

(* two full blocks push it out of the truncated collection, then a later
   block delivers its hash once more *)
Definition runEvictAndRedeliver : list Tick :=
  [ IngestionTick PollingHook 4000 (sampleBlock 102 "0xb" 50);
    IngestionTick PollingHook 7000 (sampleBlock 103 "0xc" 50);
    IngestionTick PollingHook 10000 (sampleBlock 104 "0xa" 1) ].

(* successive progression ticks at the given times, on one packet *)
Definition progressMany (nows : list Z) (p : StreamPacket) : StreamPacket :=
  fold_left (λ q now, progressPacket now q) nows p.

(* a packet whose last stage time is the epoch itself *)
Definition epochPacket : StreamPacket :=
  txToPacket PollingHook somniaTestnet 0 (sampleBlock 101 "0xa" 1) 0
    (sampleTx "0xa0" 1000).

(* a packet in stage [st] that was created and last advanced at the given
   times *)
Definition samplePacket (k : string) (st : StreamStatus) (created : Z)
    (lastStage : Z) : StreamPacket :=
  mkPacket k st created "Transaction" "0xF00D" [] (statusOrder st) k
           lastStage 101.

(* [n] packets in one stage, with ids [prefix0], [prefix1], ... *)
Definition samplePackets (prefix : string) (st : StreamStatus)
    (created lastStage : Z) (n : nat) : list StreamPacket :=
  (λ i, samplePacket (prefix +:+ numToString (Z.of_nat i)) st created lastStage)
    <$> seq 0 n.

(* 101 Finalized packets, newest first: the packet at index [i] was created
   at 20000 - 100 i and finalized 900 ms later *)
Definition overflowSample : list StreamPacket :=
  (λ i, samplePacket ("0xf" +:+ numToString (Z.of_nat i)) finalized
          (20000 - 100 * Z.of_nat i) (20900 - 100 * Z.of_nat i))
    <$> seq 0 101.

(* 105 packets, newest first, of which the 10 oldest are Finalized *)
Definition scenario4Sample : list StreamPacket :=
  samplePackets "0xs" streamed 5000 5000 95
    ++ samplePackets "0xf" finalized 1000 1900 10.

(* a field of the [data] payload *)
Fixpoint dataField (k : string) (d : list (string * DataValue))
  : option DataValue :=
  match d with
  | [] => None
  | (k', v) :: r => if String.eqb k k' then Some v else dataField k r
  end.

(* a contract deployment: no recipient, no value *)
Definition deployTx : Tx :=
  {| tx_hash := Some "0xD0"; tx_value := Some 0; tx_from := Some "0xF00D";
     tx_to := None; tx_gas := Some 900000 |}.

(* replies of the block source *)
Definition headReply (n : Z) (b : Block) : BlockSource :=
  {| getBlockNumber := Returns n; getBlock := λ _, Returns b |}.
Definition headFailure (message : string) (b : Block) : BlockSource :=
  {| getBlockNumber := Throws message; getBlock := λ _, Returns b |}.

(* the polling-only engine after its first two ticks: the cursor is set at
   head 100, then block 101 with three transactions is ingested *)
Definition engineAt101 : Engine :=
  fetchAndProcessBlock somniaTestnet 4000
    (headReply 101 (sampleBlock 101 "0xa" 3))
    (fetchAndProcessBlock somniaTestnet 1000
       (headReply 100 (sampleBlock 100 "0x9" 2))
       (initialEngine http somniaTestnet)).

(* tick N: the head fetch throws *)
Definition engineAfterError : Engine :=
  fetchAndProcessBlock somniaTestnet 7000
    (headFailure "network error" (sampleBlock 102 "0xb" 1)) engineAt101.

(** ** Further observations *)

(* what ingestion establishes for a packet and progression keeps: the
   confirmation counter is the index of the stage, the hash is the id, and
   the id is in lower case *)
Definition packetInvariant (p : StreamPacket) : Prop :=
  confirmations p = statusOrder (status p) ∧
  hash p = id p ∧
  toLowerCase (id p) = id p ∧
  (eventType p = "Transfer" ∨ eventType p = "Transaction").

(** ** The watching hook: block notifications and the fallback to polling
    ([src/hooks/useSomniaStreams.ts]) *)

(* (prev) => ({ ...prev, status: st, method: m }) *)
Definition withStatusMethod (st : ConnectionStatus) (m : ConnectionMethod)
    (prev : ConnectionInfo) : ConnectionInfo :=
  {| conn_status := st; conn_method := m;
     conn_error := conn_error prev;
     conn_lastBlockTime := conn_lastBlockTime prev;
     networkName := networkName prev; rpcUrl := rpcUrl prev |}.

(* (prev) => ({ ...prev, status: st }) *)
Definition withStatus (st : ConnectionStatus) (prev : ConnectionInfo)
  : ConnectionInfo :=
  {| conn_status := st; conn_method := conn_method prev;
     conn_error := conn_error prev;
     conn_lastBlockTime := conn_lastBlockTime prev;
     networkName := networkName prev; rpcUrl := rpcUrl prev |}.

(* the [onBlock] callback of watchBlocks, for the notification of block
   [number]: the status is set before the full block is fetched, and a
   failure of the fetch is caught and only logged.  The packets take their
   block number from the notification and their transactions from the
   fetched block. *)
Definition onBlock (cfg : NetworkConfig) (now : Z) (number : Z)
    (src : BlockSource) (st : Engine) : Engine :=
  let notified := withStatusCleared connected now (connectionInfo st) in
  match getBlock src number with
  | Throws _ =>
      {| streams := streams st;
         connectionInfo := notified;
         lastBlockNumber := lastBlockNumber st |}
  | Returns fullBlock =>
      {| streams :=
           ingestBlock WatchHook cfg now
             {| blk_hash := blk_hash fullBlock;
                blk_number := Some number;
                blk_transactions := blk_transactions fullBlock |}
             (streams st);
         connectionInfo := notified;
         lastBlockNumber := lastBlockNumber st |}
  end.

(* setupPolling: the status change and the initial poll *)
Definition setupPolling (cfg : NetworkConfig) (now : Z)
    (src : BlockSource) (st : Engine) : Engine :=
  pollBlocks cfg now src
    {| streams := streams st;
       connectionInfo := withStatusMethod polling http (connectionInfo st);
       lastBlockNumber := lastBlockNumber st |}.

(* the [onError] callback of watchBlocks: report, then fall back *)
Definition onWatchError (message : string) (cfg : NetworkConfig) (now : Z)
    (src : BlockSource) (st : Engine) : Engine :=
  setupPolling cfg now src
    {| streams := streams st;
       connectionInfo := withError message (connectionInfo st);
       lastBlockNumber := lastBlockNumber st |}.

(* setupWebSocket; [watch] is the outcome of the call of watchBlocks *)
Definition setupWebSocket (cfg : NetworkConfig) (now : Z)
    (watch : Reply unit) (src : BlockSource) (st : Engine) : Engine :=
  let attempting :=
    withStatusMethod connecting websocket (connectionInfo st) in
  match watch with
  | Returns _ =>
      {| streams := streams st;
         connectionInfo := withStatus connected attempting;
         lastBlockNumber := lastBlockNumber st |}
  | Throws message =>
      setupPolling cfg now src
        {| streams := streams st;
           connectionInfo := withError message attempting;
           lastBlockNumber := lastBlockNumber st |}
  end.

(* the start of the effect: the transport is chosen by
   networkConfig.supportsWebSocket *)
Definition startConnection (cfg : NetworkConfig) (supportsWebSocket : bool)
    (now : Z) (watch : Reply unit) (src : BlockSource) : Engine :=
  if supportsWebSocket
  then setupWebSocket cfg now watch src (initialEngine none cfg)
  else setupPolling cfg now src (initialEngine none cfg).

(** ** Runs of the engines

    The polling-only hook uses [FetchTick] and [ProgressTick]; the watching
    hook uses [BlockTick], [WatchErrorTick], [PollTick] and
    [ProgressTick]. *)

Inductive EngineTick : Type :=
  | FetchTick (now : Z) (src : BlockSource)
  | PollTick (now : Z) (src : BlockSource)
  | BlockTick (now : Z) (number : Z) (src : BlockSource)
  | WatchErrorTick (message : string) (now : Z) (src : BlockSource)
  | ProgressTick (now : Z).

Definition applyEngineTick (cfg : NetworkConfig) (st : Engine)
    (t : EngineTick) : Engine :=
  match t with
  | FetchTick now src => fetchAndProcessBlock cfg now src st
  | PollTick now src => pollBlocks cfg now src st
  | BlockTick now number src => onBlock cfg now number src st
  | WatchErrorTick message now src => onWatchError message cfg now src st
  | ProgressTick now => progressEngine now st
  end.

Definition runEngine (cfg : NetworkConfig) (ticks : list EngineTick)
    (st : Engine) : Engine :=
  fold_left (applyEngineTick cfg) ticks st.

(** ** The activity log ([TerminalLog], src/unnamed/part_001) *)

(* the text of a status *)
Definition statusName (s : StreamStatus) : string :=
  match s with
  | streamed => "streamed"
  | indexed => "indexed"
  | consolidated => "consolidated"
  | finalized => "finalized"
  end.

(* `${stream.id}-${stream.status}` *)
Definition eventKey (stream : StreamPacket) : string :=
  id stream +:+ "-" +:+ statusName (status stream).

Record LogEntry : Type := mkEntry {
  entry_time : string;
  entry_stream : StreamPacket
}.

Record LogState : Type := mkLog {
  logEntries : list LogEntry;       (* logEntriesRef, newest first *)
  loggedEvents : gset string        (* loggedEventsRef *)
}.

Definition emptyLog : LogState := mkLog [] ∅.

(* the callback of [streams.forEach]; [time] is the clock text read when
   the entry is made *)
Definition logStream (time : string) (st : LogState) (stream : StreamPacket)
  : LogState :=
  if decide (eventKey stream ∈ loggedEvents st) then st
  else
    {| logEntries := mkEntry time stream :: logEntries st;
       loggedEvents := {[eventKey stream]} ∪ loggedEvents st |}.

(* [times i] is the clock text while the stream at index [i] is visited *)
Fixpoint logEach (times : nat → string) (i : nat)
    (streams : list StreamPacket) (st : LogState) : LogState :=
  match streams with
  | [] => st
  | stream :: rest =>
      logEach times (S i) rest (logStream (times i) st stream)
  end.

(* the effect that runs whenever [streams] changes *)
Definition logEffect (times : nat → string) (streams : list StreamPacket)
    (st : LogState) : LogState :=
  let st' := logEach times 0 streams st in
  if Z.of_nat (length (logEntries st')) >? 50 then
    {| logEntries := take 50 (logEntries st');
       loggedEvents := loggedEvents st' |}
  else st'.

(* the log after the effect has run for each of the given renders *)
Definition runLog (renders : list ((nat → string) * list StreamPacket))
  : LogState :=
  fold_left (λ st r, logEffect r.1 r.2 st) renders emptyLog.

Definition entryKeys (st : LogState) : list string :=
  (λ e, eventKey (entry_stream e)) <$> logEntries st.

(** ** The grid of capsules ([ConsensusFeed],
    src/components/ConsensusFeed.tsx) *)

(* const columns = isMobile ? 1 : isTablet ? 2 : 4 *)
Definition columns (isMobile isTablet : bool) : Z :=
  if isMobile then 1 else if isTablet then 2 else 4.

(* STAGE_CONFIG[status].baseY *)
Definition baseY (s : StreamStatus) : Z :=
  match s with
  | streamed => 2
  | indexed => 22
  | consolidated => 42
  | finalized => 62
  end.

(* the numbers of the position: left is [pos_left]% and top is
   calc([pos_topBase]% + [pos_topPx]px + 40px) *)
Record Position : Type := mkPosition {
  pos_left : float;
  pos_topBase : Z;
  pos_topPx : Z
}.

(* getPosition, for an index that findIndex has found (not negative) *)
Definition getPosition (cols : Z) (s : StreamStatus) (index : Z)
  : Position :=
  let col := Z.rem index cols in
  let row := index / cols in
  let widthPerCol := (100 / Number cols)%float in
  let rowHeight := if decide (s = finalized) then 55 else 45 in
  {| pos_left := (Number col * widthPerCol + widthPerCol / 2)%float;
     pos_topBase := baseY s;
     pos_topPx := row * rowHeight |}.

(* Array.from(new Map(streams.map((s) => [s.id, s])).values()) *)
Definition uniqueStreams (streams : list StreamPacket) : list StreamPacket :=
  JsMap.values
    (fold_left (λ m s, JsMap.set (id s) s m) streams JsMap.empty).

(* streamsByStatus[status] *)
Definition streamsByStatus (unique : list StreamPacket) (s : StreamStatus)
  : list StreamPacket :=
  filter (λ p, status p = s) unique.

(* group.findIndex((s) => s.id === k) *)
Fixpoint findIndex (k : string) (group : list StreamPacket) : Z :=
  match group with
  | [] => -1
  | s :: rest =>
      if String.eqb (id s) k then 0
      else
        let i := findIndex k rest in
        if i =? -1 then -1 else i + 1
  end.

(* the callback of [uniqueStreams.map]: the position and the opacity of the
   capsule, or nothing *)
Definition placeCapsule (cols : Z) (unique : list StreamPacket)
    (stream : StreamPacket) : option (Position * Z) :=
  let group := streamsByStatus unique (status stream) in
  let index := findIndex (id stream) group in
  if index =? -1 then None
  else
    Some (getPosition cols (status stream) index,
          if bool_decide (status stream = finalized) && (index >? 11)
          then 0 else 1).

(* a source whose head fetch succeeds and whose block fetch throws *)
Definition blockFailure (n : Z) (message : string) : BlockSource :=
  {| getBlockNumber := Returns n; getBlock := λ _, Throws message |}.

(* the entries of the log have distinct event keys, all marked as logged *)
Definition logConsistent (st : LogState) : Prop :=
  NoDup (entryKeys st) ∧ ∀ k, k ∈ entryKeys st → k ∈ loggedEvents st.

(* [p] is the last packet of [l] with its id *)
Definition lastWithId (l : list StreamPacket) (p : StreamPacket) : Prop :=
  ∃ l1 l2, l = l1 ++ p :: l2 ∧ id p ∉ ids l2.

(* the capsule of [stream] is shown: it is placed with opacity 1 *)
Definition capsuleShown (cols : Z) (unique : list StreamPacket)
    (stream : StreamPacket) : Prop :=
  snd <$> placeCapsule cols unique stream = Some 1.

(* the Map that [uniqueStreams] builds *)
Definition uniqueSeen (l : list StreamPacket) : JsMap.t StreamPacket :=
  fold_left (λ m s, JsMap.set (id s) s m) l JsMap.empty.

(** * Properties *)

(** ** The ordered map *)
Section JsMapFacts.
Context {V : Type}.
Implicit Types (m : JsMap.t V) (k : string) (v : V).

Lemma has_true k m : JsMap.has k m = true ↔ k ∈ JsMap.keys m.
Proof.
  induction m as [|[k' v'] r IH]; simpl.
  - split; [done | by intros ?%elem_of_nil].
  - destruct (String.eqb_spec k k') as [->|Hne].
    + split; [intros _; left | done].
    + rewrite IH. split; [by right |].
      intros [?|?]%elem_of_cons; [congruence | done].
Qed.

Lemma has_false k m : JsMap.has k m = false ↔ k ∉ JsMap.keys m.
Proof. rewrite <- has_true. by destruct (JsMap.has k m). Qed.

Lemma get_elem k v m : JsMap.get k m = Some v → (k, v) ∈ m.
Proof.
  induction m as [|[k' v'] r IH]; simpl; [done |].
  destruct (String.eqb_spec k k') as [->|Hne].
  - intros [= ->]. left.
  - intros H. right. auto.
Qed.

Lemma has_get k m : JsMap.has k m = true → is_Some (JsMap.get k m).
Proof.
  induction m as [|[k' v'] r IH]; simpl; [done |].
  destruct (String.eqb k k'); eauto.
Qed.

Lemma set_fresh k v m :
  k ∉ JsMap.keys m → JsMap.set k v m = m ++ [(k, v)].
Proof.
  induction m as [|[k' v'] r IH]; simpl; [done |].
  intros [Hne Hr]%not_elem_of_cons.
  destruct (String.eqb_spec k k'); [done |]. by rewrite IH.
Qed.

Lemma keys_set_present k v m :
  k ∈ JsMap.keys m → JsMap.keys (JsMap.set k v m) = JsMap.keys m.
Proof.
  induction m as [|[k' v'] r IH]; simpl; [by intros ?%elem_of_nil |].
  destruct (String.eqb_spec k k') as [->|Hne]; [done |].
  intros [?|?]%elem_of_cons; [done |].
  unfold JsMap.keys in *. csimpl. f_equal. by apply IH.
Qed.

Lemma elem_of_set k v m k' v' :
  NoDup (JsMap.keys m) → (k', v') ∈ JsMap.set k v m →
  (k' = k ∧ v' = v) ∨ ((k', v') ∈ m ∧ k' ≠ k).
Proof.
  induction m as [|[k0 v0] r IH]; simpl.
  - intros _ ?%list_elem_of_singleton. left. by simplify_eq.
  - intros [Hk0 Hr]%NoDup_cons.
    destruct (String.eqb_spec k k0) as [->|Hne].
    + intros [?|Hin]%elem_of_cons; [left; by simplify_eq |].
      right. split; [by right |]. intros ->.
      apply Hk0. unfold JsMap.keys.
      by apply (list_elem_of_fmap_2 fst) in Hin.
    + intros [?|Hin]%elem_of_cons.
      * right. simplify_eq. split; [left | done].
      * destruct (IH Hr Hin) as [?|[? ?]]; [by left |].
        right. split; [by right | done].
Qed.

Lemma keys_functional m k v v' :
  NoDup (JsMap.keys m) → (k, v) ∈ m → (k, v') ∈ m → v = v'.
Proof.
  induction m as [|[k0 v0] r IH]; simpl; [by intros _ ?%elem_of_nil |].
  intros [Hk0 Hr]%NoDup_cons [?|H1]%elem_of_cons [?|H2]%elem_of_cons.
  - by simplify_eq.
  - simplify_eq. exfalso. apply Hk0.
    by apply (list_elem_of_fmap_2 fst) in H2.
  - simplify_eq. exfalso. apply Hk0.
    by apply (list_elem_of_fmap_2 fst) in H1.
  - eauto.
Qed.
End JsMapFacts.

(** ** Deduplication *)

Lemma retainedFrom_snoc l v x :
  retainedFrom l v →
  (id x = id v → statusOrder (status x) ≤ statusOrder (status v)) →
  retainedFrom (l ++ [x]) v.
Proof.
  intros (l1 & l2 & -> & Hlt & Hle) Hx.
  exists l1, (l2 ++ [x]). split; [by rewrite <- app_assoc |].
  split; [done |].
  intros q [Hq|Hq%list_elem_of_singleton]%elem_of_app; [auto |].
  subst q. done.
Qed.

Lemma retainedFrom_max l v q :
  retainedFrom l v → q ∈ l → id q = id v →
  statusOrder (status q) ≤ statusOrder (status v).
Proof.
  intros (l1 & l2 & -> & Hlt & Hle) Hq Hid.
  apply elem_of_app in Hq as [Hq|Hq].
  - specialize (Hlt q Hq Hid). lia.
  - apply elem_of_cons in Hq as [->|Hq]; [lia | auto].
Qed.

Lemma retainedFrom_last l x :
  (∀ q, q ∈ l → id q = id x →
        statusOrder (status q) < statusOrder (status x)) →
  retainedFrom (l ++ [x]) x.
Proof.
  intros H. exists l, []. split; [done |]. split; [done |].
  by intros q ?%elem_of_nil.
Qed.

Lemma ids_snoc l x : ids (l ++ [x]) = ids l ++ [id x].
Proof. unfold ids. by rewrite fmap_app. Qed.

Lemma dedupStep_inv l m x :
  dedupInv l m → dedupInv (l ++ [x]) (dedupStep m x).
Proof.
  intros (Hnd & Hkeys & Hent). unfold dedupStep.
  destruct (JsMap.has (id x) m) eqn:Hhas; simpl.
  - (* the id was seen *)
    destruct (has_get _ _ Hhas) as [e He]. rewrite He.
    pose proof (get_elem _ _ _ He) as Hin.
    destruct (Hent _ _ Hin) as [Hide Hrete].
    apply has_true in Hhas.
    destruct (Z.gtb_spec (statusOrder (status x)) (statusOrder (status e)))
      as [Hgt|Hle].
    + repeat split.
      * by rewrite keys_set_present.
      * rewrite keys_set_present by done. rewrite Hkeys, ids_snoc.
        intros ?. apply elem_of_app. by left.
      * rewrite keys_set_present by done. rewrite ids_snoc, Hkeys.
        intros [?| ->%list_elem_of_singleton]%elem_of_app; [done |].
        by apply Hkeys.
      * apply elem_of_set in H as [[-> ->]|[H Hne]]; [done | |done].
        by apply Hent in H as [? ?].
      * apply elem_of_set in H as [[-> ->]|[H Hne]]; [| |done].
        -- apply retainedFrom_last. intros q Hq Hid.
           pose proof (retainedFrom_max _ _ _ Hrete Hq) as Hm.
           rewrite Hide in Hm. specialize (Hm Hid). lia.
        -- apply Hent in H as [Hid Hret].
           apply retainedFrom_snoc; [done |]. congruence.
    + repeat split.
      * done.
      * rewrite Hkeys, ids_snoc. intros ?. apply elem_of_app. by left.
      * rewrite ids_snoc, Hkeys.
        intros [?| ->%list_elem_of_singleton]%elem_of_app; [done |].
        by apply Hkeys.
      * by apply Hent in H as [? ?].
      * pose proof H as H'. apply Hent in H as [Hid Hret].
        apply retainedFrom_snoc; [done |]. intros Hx.
        assert (v = e) as ->; [| lia].
        eapply keys_functional; [done | done |]. congruence.
  - (* a new id *)
    apply has_false in Hhas. rewrite set_fresh by done.
    assert (id x ∉ ids l) as Hfresh by (by rewrite <- Hkeys).
    repeat split.
    + unfold JsMap.keys in *. rewrite fmap_app. simpl.
      apply NoDup_app. split; [done |]. split; [| apply NoDup_singleton].
      intros k Hk ->%list_elem_of_singleton. done.
    + unfold JsMap.keys in *. rewrite fmap_app, ids_snoc. simpl.
      intros [?%Hkeys|?]%elem_of_app; apply elem_of_app; auto.
    + unfold JsMap.keys in *. rewrite fmap_app, ids_snoc. simpl.
      intros [?%Hkeys|?]%elem_of_app; apply elem_of_app; auto.
    + apply elem_of_app in H as [H|H%list_elem_of_singleton].
      * by apply Hent in H as [? ?].
      * by simplify_eq.
    + apply elem_of_app in H as [H|H%list_elem_of_singleton].
      * pose proof H as H'. apply Hent in H as [Hid Hret].
        apply retainedFrom_snoc; [done |]. intros Hx. exfalso.
        apply Hfresh. rewrite Hx, Hid, <- Hkeys.
        by apply (list_elem_of_fmap_2 fst) in H'.
      * simplify_eq. apply retainedFrom_last. intros q Hq Hid.
        exfalso. apply Hfresh. rewrite <- Hid.
        by apply (list_elem_of_fmap_2 id).
Qed.

Lemma dedupSeen_snoc l x : dedupSeen (l ++ [x]) = dedupStep (dedupSeen l) x.
Proof. unfold dedupSeen. by rewrite fold_left_app. Qed.

Lemma dedupSeen_inv l : dedupInv l (dedupSeen l).
Proof.
  induction l as [|x l IH] using rev_ind.
  - repeat split; try done.
    + apply NoDup_nil_2.
    + by apply elem_of_nil in H.
    + by apply elem_of_nil in H.
  - rewrite dedupSeen_snoc. by apply dedupStep_inv.
Qed.

Lemma dedup_ids l : ids (deduplicateStreams l) = JsMap.keys (dedupSeen l).
Proof.
  destruct (dedupSeen_inv l) as (_ & _ & Hent).
  unfold deduplicateStreams, ids, JsMap.values, JsMap.keys.
  rewrite <- list_fmap_compose.
  apply Forall_fmap_ext, Forall_forall. intros [k v] Hin. simpl.
  by apply Hent in Hin as [? ?].
Qed.

Lemma dedup_NoDup l : NoDup (ids (deduplicateStreams l)).
Proof. rewrite dedup_ids. apply dedupSeen_inv. Qed.

Lemma dedup_ids_iff l k : k ∈ ids (deduplicateStreams l) ↔ k ∈ ids l.
Proof. rewrite dedup_ids. apply dedupSeen_inv. Qed.

Lemma dedup_retained l p : p ∈ deduplicateStreams l → retainedFrom l p.
Proof.
  unfold deduplicateStreams, JsMap.values.
  intros ([k v] & -> & Hin)%list_elem_of_fmap. simpl.
  by apply (dedupSeen_inv l) in Hin as [_ ?].
Qed.

Lemma dedup_elem_of l p : p ∈ deduplicateStreams l → p ∈ l.
Proof.
  intros (l1 & l2 & -> & _)%dedup_retained.
  apply elem_of_app. right. left.
Qed.

Lemma dedup_pair_later a b :
  id a = id b → statusOrder (status a) < statusOrder (status b) →
  deduplicateStreams [a; b] = [b].
Proof.
  intros Hid Hlt. unfold deduplicateStreams, dedupSeen. simpl.
  unfold dedupStep at 2. simpl. unfold dedupStep. simpl.
  rewrite Hid, String.eqb_refl. simpl.
  by destruct (Z.gtb_spec (statusOrder (status b)) (statusOrder (status a)));
    [| lia].
Qed.

Lemma dedup_pair_earlier a b :
  id a = id b → statusOrder (status a) ≤ statusOrder (status b) →
  deduplicateStreams [b; a] = [b].
Proof.
  intros Hid Hle. unfold deduplicateStreams, dedupSeen. simpl.
  unfold dedupStep at 2. simpl. unfold dedupStep. simpl.
  rewrite Hid, String.eqb_refl. simpl.
  by destruct (Z.gtb_spec (statusOrder (status a)) (statusOrder (status b)));
    [lia |].
Qed.

Lemma dedupSeen_NoDup l :
  NoDup (ids l) → dedupSeen l = (λ p, (id p, p)) <$> l.
Proof.
  induction l as [|x l IH] using rev_ind; [done |].
  rewrite ids_snoc. intros (Hl & Hx & _)%NoDup_app.
  rewrite dedupSeen_snoc, IH by done.
  assert (id x ∉ JsMap.keys ((λ p, (id p, p)) <$> l)) as Hfresh.
  { unfold JsMap.keys. rewrite <- list_fmap_compose. intros Hin.
    apply (Hx _ Hin). left. }
  unfold dedupStep. apply has_false in Hfresh as Hhas. rewrite Hhas. simpl.
  rewrite set_fresh by done. by rewrite fmap_app.
Qed.

Lemma dedup_NoDup_id l : NoDup (ids l) → deduplicateStreams l = l.
Proof.
  intros H. unfold deduplicateStreams, JsMap.values.
  rewrite dedupSeen_NoDup by done. rewrite <- list_fmap_compose.
  rewrite <- (list_fmap_id l) at 2. by apply list_fmap_ext.
Qed.

Lemma dedup_length l :
  (length (deduplicateStreams l) ≤ length l)%nat.
Proof.
  rewrite <- (length_fmap id (deduplicateStreams l)), <- (length_fmap id l).
  apply submseteq_length, NoDup_submseteq; [apply dedup_NoDup |].
  intros k. apply dedup_ids_iff.
Qed.

(** C3.  Deduplication keeps exactly one packet per id: the ids of the
    output are pairwise distinct and are the ids of the input; the packet
    kept for an id is the first one in the input whose status order is the
    greatest for that id (a later packet replaces the kept one only when
    its order is strictly greater, so on equal order the first-seen stays);
    of a Streamed and a Consolidated packet with one id the Consolidated
    one is kept, in either input order; the empty input gives the empty
    output. *)
Theorem dedup_merge_correct :
  (∀ l : list StreamPacket,
     NoDup (ids (deduplicateStreams l)) ∧
     (∀ k, k ∈ ids (deduplicateStreams l) ↔ k ∈ ids l) ∧
     (∀ p, p ∈ deduplicateStreams l → retainedFrom l p)) ∧
  (∀ a b : StreamPacket,
     id a = id b → status a = streamed → status b = consolidated →
     deduplicateStreams [a; b] = [b] ∧ deduplicateStreams [b; a] = [b]) ∧
  deduplicateStreams [] = [].
Proof.
  split; [| split; [| done]].
  - intros l. split; [apply dedup_NoDup |].
    split; [apply dedup_ids_iff | apply dedup_retained].
  - intros a b Hid Ha Hb. split.
    + apply dedup_pair_later; [done |]. rewrite Ha, Hb. done.
    + apply dedup_pair_earlier; [done |]. rewrite Ha, Hb. done.
Qed.

Lemma dedup_merge_correct_witness :
  deduplicateStreams
    [samplePacket "0xa0" streamed 1000 1000;
     samplePacket "0xa0" consolidated 1000 1600]
  = [samplePacket "0xa0" consolidated 1000 1600] ∧
  deduplicateStreams
    [samplePacket "0xa0" consolidated 1000 1600;
     samplePacket "0xa0" streamed 1000 1000]
  = [samplePacket "0xa0" consolidated 1000 1600] ∧
  retainedFrom
    [samplePacket "0xa0" streamed 1000 1000;
     samplePacket "0xa0" consolidated 1000 1600]
    (samplePacket "0xa0" consolidated 1000 1600).
Proof.
  pose proof (proj1 (proj2 dedup_merge_correct)
                (samplePacket "0xa0" streamed 1000 1000)
                (samplePacket "0xa0" consolidated 1000 1600)
                eq_refl eq_refl eq_refl) as [H1 H2].
  split; [exact H1 |]. split; [exact H2 |].
  apply (proj1 dedup_merge_correct). rewrite H1. left.
Defined.

(** C9.  Deduplicating a collection in which no two packets share an id
    returns that collection: the same packets in the same order. *)
Theorem dedup_idempotent (l : list StreamPacket) :
  NoDup (ids l) → deduplicateStreams l = l.
Proof. apply dedup_NoDup_id. Qed.

Lemma dedup_idempotent_witness :
  NoDup (ids (take 3 scenario4Sample)) ∧
  deduplicateStreams (take 3 scenario4Sample) = take 3 scenario4Sample.
Proof.
  assert (NoDup (ids (take 3 scenario4Sample))) as H.
  { apply (bool_decide_unpack _). vm_compute. exact I. }
  split; [exact H |]. exact (dedup_idempotent _ H).
Defined.

(** ** Ingestion *)

Lemma uniqueNew_nil (newStreams prev : list StreamPacket) :
  (∀ s, s ∈ newStreams → id s ∈ ids prev) →
  filter (λ s, id s ∉ (list_to_set (id <$> prev) : gset string)) newStreams
  = [].
Proof.
  intros H. induction newStreams as [|x r IH]; [done |].
  rewrite filter_cons_False.
  - apply IH. intros s Hs. apply H. by right.
  - intros Hx. apply Hx, elem_of_list_to_set, H. left.
Qed.

Lemma mergeStreams_present newStreams prev :
  (∀ s, s ∈ newStreams → id s ∈ ids prev) →
  mergeStreams newStreams prev = prev.
Proof. intros H. unfold mergeStreams. by rewrite uniqueNew_nil. Qed.

Lemma newStreams_elem h cfg now block s :
  s ∈ newStreams h cfg now block →
  ∃ i tx, txsToShow block !! i = Some tx ∧ s = txToPacket h cfg now block i tx.
Proof.
  intros (i & Hi)%list_elem_of_lookup. unfold newStreams in Hi.
  rewrite list_lookup_imap in Hi.
  destruct (txsToShow block !! i) as [tx|] eqn:E; [| done].
  exists i, tx. split; [done |]. simpl in Hi. congruence.
Qed.

(** C10.  An ingestion tick in which the id of every fetched transaction is
    already in the collection returns the collection as it was: the
    [setStreams] updater returns [prev] itself, so neither deduplication
    nor truncation touches it. *)
Theorem ingestion_noop_when_all_present :
  (∀ newStreams prev : list StreamPacket,
     (∀ s, s ∈ newStreams → id s ∈ ids prev) →
     mergeStreams newStreams prev = prev) ∧
  (∀ h cfg now block (prev : list StreamPacket),
     (∀ i tx, txsToShow block !! i = Some tx → txId now i tx ∈ ids prev) →
     ingestBlock h cfg now block prev = prev).
Proof.
  split; [apply mergeStreams_present |].
  intros h cfg now block prev H. unfold ingestBlock.
  destruct (_ >? 0); [| done].
  apply mergeStreams_present.
  intros s (i & tx & Hi & ->)%newStreams_elem. simpl. eauto.
Qed.

Lemma ingestion_noop_when_all_present_witness :
  mergeStreams [samplePacket "0xs1" streamed 9000 9000]
               (take 3 scenario4Sample)
  = take 3 scenario4Sample ∧
  ingestBlock PollingHook somniaTestnet 9000 (sampleBlock 102 "0xs" 1)
              (take 3 scenario4Sample)
  = take 3 scenario4Sample.
Proof.
  destruct ingestion_noop_when_all_present as [Hmerge Hingest]. split.
  - apply Hmerge. intros s ->%list_elem_of_singleton.
    vm_compute. right. left.
  - apply Hingest. intros [|i] tx Hi; vm_compute in Hi; [| discriminate].
    injection Hi as <-. vm_compute. left.
Defined.

(** ** Capacity *)

Lemma mergeStreams_length newStreams prev :
  Z.of_nat (length prev) ≤ MAX_STREAMS →
  Z.of_nat (length (mergeStreams newStreams prev)) ≤ MAX_STREAMS.
Proof.
  intros H. unfold mergeStreams.
  destruct (_ >? 0); [| done].
  rewrite length_take. unfold MAX_STREAMS. lia.
Qed.

Lemma ingestBlock_length h cfg now block prev :
  Z.of_nat (length prev) ≤ MAX_STREAMS →
  Z.of_nat (length (ingestBlock h cfg now block prev)) ≤ MAX_STREAMS.
Proof.
  intros H. unfold ingestBlock.
  destruct (_ >? 0); [by apply mergeStreams_length | done].
Qed.

Lemma evictOverflow_within l :
  Z.of_nat (length l) ≤ MAX_STREAMS → evictOverflow l = l.
Proof.
  intros H. unfold evictOverflow.
  by destruct (Z.gtb_spec (Z.of_nat (length l)) MAX_STREAMS); [lia |].
Qed.

Lemma progressionInterval_length now prev :
  Z.of_nat (length prev) ≤ MAX_STREAMS →
  Z.of_nat (length (progressionInterval now prev)) ≤ MAX_STREAMS.
Proof.
  intros H. unfold progressionInterval.
  rewrite evictOverflow_within by (by rewrite length_fmap).
  pose proof (dedup_length (progressPacket now <$> prev)) as Hd.
  rewrite length_fmap in Hd. lia.
Qed.

Lemma applyTick_length cfg s t :
  Z.of_nat (length s) ≤ MAX_STREAMS →
  Z.of_nat (length (applyTick cfg s t)) ≤ MAX_STREAMS.
Proof.
  destruct t; simpl;
    [apply ingestBlock_length | apply progressionInterval_length].
Qed.

Lemma runTicks_snoc cfg ticks t s :
  runTicks cfg (ticks ++ [t]) s = applyTick cfg (runTicks cfg ticks s) t.
Proof. unfold runTicks. by rewrite fold_left_app. Qed.

Lemma runTicks_length cfg ticks s :
  Z.of_nat (length s) ≤ MAX_STREAMS →
  Z.of_nat (length (runTicks cfg ticks s)) ≤ MAX_STREAMS.
Proof.
  intros H. induction ticks as [|t ticks IH] using rev_ind; [done |].
  rewrite runTicks_snoc. by apply applyTick_length.
Qed.

Lemma runStates_length cfg ticks s :
  Z.of_nat (length s) ≤ MAX_STREAMS →
  Forall (λ s', Z.of_nat (length s') ≤ MAX_STREAMS) (runStates cfg ticks s).
Proof.
  revert s. induction ticks as [|t ticks IH]; intros s H; simpl.
  - apply Forall_nil_2.
  - pose proof (applyTick_length cfg s t H). apply Forall_cons; auto.
Qed.

(** C1.  Capacity invariant: in every run of ingestion ticks (merge of the
    new packets, then truncation) and progression ticks (stage advancement,
    then eviction and deduplication) from the empty collection, the
    collection after each tick holds at most MAX_STREAMS = 100 packets. *)
Theorem capacity_invariant (cfg : NetworkConfig) (ticks : list Tick) :
  MAX_STREAMS = 100 ∧
  Forall (λ s, Z.of_nat (length s) ≤ MAX_STREAMS) (runStates cfg ticks []) ∧
  Z.of_nat (length (runTicks cfg ticks [])) ≤ MAX_STREAMS.
Proof.
  assert (Z.of_nat (length (@nil StreamPacket)) ≤ MAX_STREAMS) as H0
    by (unfold MAX_STREAMS; simpl; lia).
  split; [done |]. split; [by apply runStates_length |].
  by apply runTicks_length.
Qed.

(** ** Well-formed collections *)

Lemma lookupId_Some k s p : lookupId k s = Some p → p ∈ s ∧ id p = k.
Proof.
  intros [Hin Heq]%find_some. split; [by apply list_elem_of_In |].
  by apply String.eqb_eq.
Qed.

Lemma NoDup_ids_inj s p q :
  NoDup (ids s) → p ∈ s → q ∈ s → id p = id q → p = q.
Proof.
  induction s as [|x r IH]; [by intros _ ?%elem_of_nil |].
  unfold ids. csimpl.
  intros [Hx Hr]%NoDup_cons [->|Hp]%elem_of_cons [->|Hq]%elem_of_cons Hid.
  - done.
  - exfalso. apply Hx. rewrite Hid. by apply (list_elem_of_fmap_2 id).
  - exfalso. apply Hx. rewrite <- Hid. by apply (list_elem_of_fmap_2 id).
  - by apply IH.
Qed.

Lemma lookupId_fmap (f : StreamPacket → StreamPacket) k s :
  (∀ p, id (f p) = id p) →
  lookupId k (f <$> s) = f <$> lookupId k s.
Proof.
  intros Hf. unfold lookupId.
  induction s as [|x r IH]; [done |]. csimpl. rewrite Hf.
  destruct (String.eqb (id x) k); [done | apply IH].
Qed.

Lemma progressPacket_id now p : id (progressPacket now p) = id p.
Proof.
  unfold progressPacket. repeat case_decide; try done.
  all: by destruct (_ && _).
Qed.

Lemma progressPacket_ids now s : ids (progressPacket now <$> s) = ids s.
Proof.
  unfold ids. rewrite <- list_fmap_compose. apply list_fmap_ext.
  intros ? p _. apply progressPacket_id.
Qed.

Lemma progressionInterval_wellFormed now s :
  wellFormed s → progressionInterval now s = progressPacket now <$> s.
Proof.
  intros [Hnd Hlen]. unfold progressionInterval.
  rewrite evictOverflow_within by (by rewrite length_fmap).
  apply dedup_NoDup_id. by rewrite progressPacket_ids.
Qed.

Lemma mergeStreams_NoDup newStreams prev :
  NoDup (ids prev) → NoDup (ids (mergeStreams newStreams prev)).
Proof.
  intros H. unfold mergeStreams. destruct (_ >? 0); [| done].
  unfold ids. rewrite fmap_take.
  eapply sublist_NoDup; [apply dedup_NoDup | apply sublist_take].
Qed.

Lemma applyTick_wellFormed cfg s t :
  wellFormed s → wellFormed (applyTick cfg s t).
Proof.
  intros [Hnd Hlen]. split; [| by apply applyTick_length].
  destruct t as [h now block|now]; simpl.
  - unfold ingestBlock. destruct (_ >? 0); [| done].
    by apply mergeStreams_NoDup.
  - apply dedup_NoDup.
Qed.

Lemma wellFormed_nil : wellFormed [].
Proof. split; [apply NoDup_nil_2 | unfold MAX_STREAMS; simpl; lia]. Qed.

Lemma runTicks_wellFormed cfg ticks s :
  wellFormed s → wellFormed (runTicks cfg ticks s).
Proof.
  intros H. induction ticks as [|t ticks IH] using rev_ind; [done |].
  rewrite runTicks_snoc. by apply applyTick_wellFormed.
Qed.

Lemma reachable_wellFormed cfg s : reachable cfg s → wellFormed s.
Proof. intros [ticks ->]. apply runTicks_wellFormed, wellFormed_nil. Qed.

(** ** Status progression *)

Lemma getNextStatus_order st :
  statusOrder st ≤ statusOrder (getNextStatus st).
Proof. destruct st; simpl; lia. Qed.

Lemma progressPacket_monotone now p :
  statusOrder (status p) ≤ statusOrder (status (progressPacket now p)) ∧
  (status p = finalized → status (progressPacket now p) = finalized).
Proof.
  unfold progressPacket. case_decide as Hf; [by split |].
  destruct (_ && _); [| by split].
  case_decide; simpl; [| by split].
  split; [apply getNextStatus_order | done].
Qed.

(* ingestion leaves every packet that is already in the collection as it
   is, as long as it stays *)
Lemma mergeStreams_keeps newStreams prev k p p' :
  NoDup (ids prev) →
  lookupId k prev = Some p →
  lookupId k (mergeStreams newStreams prev) = Some p' →
  p' = p.
Proof.
  intros Hnd Hl. pose proof (lookupId_Some _ _ _ Hl) as [Hp Hk].
  unfold mergeStreams. destruct (_ >? 0); [| congruence].
  intros [Hp' Hk']%lookupId_Some.
  apply subseteq_take, dedup_elem_of, elem_of_app in Hp' as [Hnew|Hprev].
  - apply list_elem_of_filter in Hnew as [Hnot _]. exfalso.
    apply Hnot, elem_of_list_to_set. rewrite Hk', <- Hk.
    by apply (list_elem_of_fmap_2 id).
  - apply (NoDup_ids_inj prev); [done | done | done | congruence].
Qed.

Lemma applyTick_monotone cfg s t k p p' :
  wellFormed s →
  lookupId k s = Some p →
  lookupId k (applyTick cfg s t) = Some p' →
  statusOrder (status p) ≤ statusOrder (status p') ∧
  (status p = finalized → status p' = finalized).
Proof.
  intros Hwf Hp. destruct t as [h now block|now]; simpl.
  - unfold ingestBlock. destruct (_ >? 0).
    + intros ->%(mergeStreams_keeps _ _ _ p); [by split | apply Hwf | done].
    + intros ?. by simplify_eq.
  - rewrite progressionInterval_wellFormed by done.
    rewrite lookupId_fmap by apply progressPacket_id.
    rewrite Hp. simpl. intros [= <-]. apply progressPacket_monotone.
Qed.

(** C2 (as amended).  For every packet id and every run of ingestion and
    progression ticks that continues a run from the empty collection: as
    long as a packet with that id stays in the collection in every state of
    the run, the status of the live packet with that id at the end is not
    below its status at the start, under streamed(0) < indexed(1) <
    consolidated(2) < finalized(3), and a finalized packet is still
    finalized. *)
Theorem status_monotone_while_live (cfg : NetworkConfig) (k : string)
    (s0 : list StreamPacket) (ticks : list Tick) (p p' : StreamPacket) :
  reachable cfg s0 →
  liveThroughout cfg k s0 ticks →
  lookupId k s0 = Some p →
  lookupId k (runTicks cfg ticks s0) = Some p' →
  statusOrder (status p) ≤ statusOrder (status p') ∧
  (status p = finalized → status p' = finalized).
Proof.
  intros Hwf%reachable_wellFormed. revert s0 p Hwf.
  induction ticks as [|t ticks IH]; intros s0 p Hwf Hlive Hp Hp'.
  - simpl in Hp'. by simplify_eq.
  - simpl in Hlive, Hp'. destruct Hlive as [_ Hlive].
    pose proof Hlive as Hl. destruct ticks; destruct Hl as [[q Hq] _].
    all: destruct (applyTick_monotone cfg s0 t k p q Hwf Hp Hq) as [H1 H2].
    all: destruct (IH _ q (applyTick_wellFormed cfg s0 t Hwf) Hlive Hq Hp')
           as [H3 H4].
    all: split; [lia | auto].
Qed.

Lemma status_monotone_while_live_witness :
  ∃ p p' : StreamPacket,
    reachable somniaTestnet (runTicks somniaTestnet (take 1 runFinalizeOne) []) ∧
    liveThroughout somniaTestnet "0xa0"
      (runTicks somniaTestnet (take 1 runFinalizeOne) [])
      (drop 1 runFinalizeOne) ∧
    lookupId "0xa0" (runTicks somniaTestnet (take 1 runFinalizeOne) [])
      = Some p ∧
    lookupId "0xa0"
      (runTicks somniaTestnet (drop 1 runFinalizeOne)
         (runTicks somniaTestnet (take 1 runFinalizeOne) [])) = Some p' ∧
    status p = streamed ∧ status p' = finalized ∧
    statusOrder (status p) ≤ statusOrder (status p') ∧
    (status p = finalized → status p' = finalized).
Proof.
  assert (reachable somniaTestnet
            (runTicks somniaTestnet (take 1 runFinalizeOne) [])) as Hreach
    by (by exists (take 1 runFinalizeOne)).
  assert (liveThroughout somniaTestnet "0xa0"
            (runTicks somniaTestnet (take 1 runFinalizeOne) [])
            (drop 1 runFinalizeOne)) as Hlive
    by (vm_compute; repeat split; eauto).
  assert (∃ p, lookupId "0xa0"
                 (runTicks somniaTestnet (take 1 runFinalizeOne) [])
               = Some p ∧ status p = streamed)
    as (p & Hp & Hsp) by (vm_compute; eauto).
  assert (∃ p', lookupId "0xa0"
                  (runTicks somniaTestnet (drop 1 runFinalizeOne)
                     (runTicks somniaTestnet (take 1 runFinalizeOne) []))
                = Some p' ∧ status p' = finalized)
    as (p' & Hp' & Hsp') by (vm_compute; eauto).
  exists p, p'.
  split; [exact Hreach |]. split; [exact Hlive |].
  split; [exact Hp |]. split; [exact Hp' |].
  split; [exact Hsp |]. split; [exact Hsp' |].
  exact (status_monotone_while_live somniaTestnet "0xa0" _ _ p p'
           Hreach Hlive Hp Hp').
Defined.

(** C2, as stated, fails: a finalized packet that the truncation of a later
    ingestion tick drops, and whose hash a later block delivers again, is
    back in the collection as streamed; so the status of the live packet
    with a given id is not non-decreasing over every run. *)
Lemma status_regresses_after_redelivery :
  status <$> lookupId "0xa0" (runTicks somniaTestnet runFinalizeOne [])
    = Some finalized ∧
  status <$> lookupId "0xa0"
               (runTicks somniaTestnet
                  (runFinalizeOne ++ runEvictAndRedeliver) [])
    = Some streamed ∧
  ¬ (∀ (k : string) (pre ticks : list Tick) (p p' : StreamPacket),
       lookupId k (runTicks somniaTestnet pre []) = Some p →
       lookupId k (runTicks somniaTestnet (pre ++ ticks) []) = Some p' →
       statusOrder (status p) ≤ statusOrder (status p')).
Proof.
  split; [by vm_compute |]. split; [by vm_compute |].
  intros H.
  assert (∃ p, lookupId "0xa0" (runTicks somniaTestnet runFinalizeOne [])
               = Some p ∧ status p = finalized)
    as (p & Hp & Hsp) by (vm_compute; eauto).
  assert (∃ p', lookupId "0xa0"
                  (runTicks somniaTestnet
                     (runFinalizeOne ++ runEvictAndRedeliver) [])
                = Some p' ∧ status p' = streamed)
    as (p' & Hp' & Hsp') by (vm_compute; eauto).
  specialize (H _ _ _ _ _ Hp Hp'). rewrite Hsp, Hsp' in H. simpl in H. lia.
Qed.

(** ** The per-packet step of a progression tick *)

Lemma progressPacket_finalized now p :
  status p = finalized →
  progressPacket now p =
    mkPacket (id p) (status p) (timestamp p) (eventType p) (source p)
             (data p) 3 (hash p) (lastStageTime p) (blockNumber p).
Proof. intros H. unfold progressPacket. by rewrite decide_True. Qed.

Lemma getNextStatus_changes st : st ≠ finalized → getNextStatus st ≠ st.
Proof. by destruct st. Qed.

Lemma progressPacket_due now p :
  status p ≠ finalized → lastStageTime p ≠ 0 →
  STAGE_DURATION ≤ now - lastStageTime p →
  progressPacket now p =
    mkPacket (id p) (getNextStatus (status p)) (timestamp p) (eventType p)
             (source p) (data p) (confirmations p + 1) (hash p) now
             (blockNumber p).
Proof.
  intros Hf H0 Hd. unfold progressPacket. rewrite decide_False by done.
  destruct (Z.eqb_spec (lastStageTime p) 0); [done |].
  destruct (Z.geb_spec (now - lastStageTime p) STAGE_DURATION); [| lia].
  simpl. rewrite decide_True; [done |]. by apply getNextStatus_changes.
Qed.

Lemma progressPacket_waiting now p :
  status p ≠ finalized →
  lastStageTime p = 0 ∨ now - lastStageTime p < STAGE_DURATION →
  progressPacket now p = p.
Proof.
  intros Hf Hw. unfold progressPacket. rewrite decide_False by done.
  destruct (Z.eqb_spec (lastStageTime p) 0); [done |].
  destruct (Z.geb_spec (now - lastStageTime p) STAGE_DURATION); [| done].
  lia.
Qed.

Lemma progressMany_snoc nows now p :
  progressMany (nows ++ [now]) p = progressPacket now (progressMany nows p).
Proof. unfold progressMany. by rewrite fold_left_app. Qed.

Lemma progressMany_finalized nows p :
  status p = finalized →
  status (progressMany nows p) = finalized ∧
  lastStageTime (progressMany nows p) = lastStageTime p ∧
  (nows ≠ [] → confirmations (progressMany nows p) = 3).
Proof.
  intros Hf. induction nows as [|now nows IH] using rev_ind; [done |].
  destruct IH as (Hs & Hl & _). rewrite progressMany_snoc.
  rewrite progressPacket_finalized by done. simpl. done.
Qed.

(** C4 (as amended).  One progression tick at time [now] on a collection
    with one packet per id and at most MAX_STREAMS packets maps every
    packet independently by [progressPacket]:
    - a Finalized packet keeps its status and lastStageTime and gets
      confirmations 3, so any number of ticks leave a Finalized packet
      Finalized, with its lastStageTime, and with confirmations 3 after the
      first;
    - a packet that is not Finalized, whose lastStageTime is not 0 (the
      source tests it for truthiness) and for which
      now - lastStageTime >= STAGE_DURATION = 300 gets the next status,
      lastStageTime now and one more confirmation;
    - every other packet is unchanged. *)
Theorem progression_per_packet (now : Z) :
  STAGE_DURATION = 300 ∧
  (∀ s : list StreamPacket,
     wellFormed s → progressionInterval now s = progressPacket now <$> s) ∧
  (∀ p, status p = finalized →
        progressPacket now p =
          mkPacket (id p) (status p) (timestamp p) (eventType p) (source p)
                   (data p) 3 (hash p) (lastStageTime p) (blockNumber p)) ∧
  (∀ p nows, status p = finalized →
        status (progressMany nows p) = finalized ∧
        lastStageTime (progressMany nows p) = lastStageTime p ∧
        (nows ≠ [] → confirmations (progressMany nows p) = 3)) ∧
  (∀ p, status p ≠ finalized → lastStageTime p ≠ 0 →
        STAGE_DURATION ≤ now - lastStageTime p →
        progressPacket now p =
          mkPacket (id p) (getNextStatus (status p)) (timestamp p)
                   (eventType p) (source p) (data p) (confirmations p + 1)
                   (hash p) now (blockNumber p)) ∧
  (∀ p, status p ≠ finalized →
        lastStageTime p = 0 ∨ now - lastStageTime p < STAGE_DURATION →
        progressPacket now p = p).
Proof.
  split; [done |].
  split; [intros s; apply progressionInterval_wellFormed |].
  split; [intros p; apply progressPacket_finalized |].
  split; [intros p nows; apply progressMany_finalized |].
  split; [intros p; apply progressPacket_due |].
  intros p; apply progressPacket_waiting.
Qed.

Lemma progression_per_packet_witness :
  progressionInterval 1400 (runTicks somniaTestnet (take 1 runFinalizeOne) [])
  = progressPacket 1400
      <$> runTicks somniaTestnet (take 1 runFinalizeOne) [] ∧
  status (progressPacket 1400
            (txToPacket PollingHook somniaTestnet 1000
               (sampleBlock 101 "0xa" 1) 0 (sampleTx "0xa0" 1000)))
  = indexed ∧
  confirmations
    (progressMany [5000; 5400]
       (mkPacket "0xa0" finalized 1000 "Transaction" "0x0" [] 0 "0xa0"
                 2200 101)) = 3 ∧
  progressPacket 1200
    (txToPacket PollingHook somniaTestnet 1000
       (sampleBlock 101 "0xa" 1) 0 (sampleTx "0xa0" 1000))
  = txToPacket PollingHook somniaTestnet 1000
      (sampleBlock 101 "0xa" 1) 0 (sampleTx "0xa0" 1000).
Proof.
  destruct (progression_per_packet 1400) as (_ & Htick & _ & _ & Hdue & _).
  destruct (progression_per_packet 1200) as (_ & _ & _ & Hfin & _ & Hwait).
  split.
  { apply Htick, (reachable_wellFormed somniaTestnet).
    by exists (take 1 runFinalizeOne). }
  split.
  { rewrite Hdue; [reflexivity | discriminate | discriminate |].
    vm_compute. discriminate. }
  split.
  { apply Hfin; [reflexivity | discriminate]. }
  apply Hwait; [discriminate |]. right. reflexivity.
Defined.

(** C4, as stated, fails: a packet that is not Finalized and whose
    lastStageTime is 0 is left unchanged however late the tick is, because
    the source guards the advancement by the truthiness of lastStageTime. *)
Lemma progression_skips_epoch_packet :
  status epochPacket = streamed ∧
  lastStageTime epochPacket = 0 ∧
  STAGE_DURATION ≤ 1000 - lastStageTime epochPacket ∧
  progressPacket 1000 epochPacket = epochPacket ∧
  status (progressPacket 1000 epochPacket)
    ≠ getNextStatus (status epochPacket) ∧
  status <$> lookupId "0xa0"
    (runTicks somniaTestnet
       [IngestionTick PollingHook 0 (sampleBlock 101 "0xa" 1);
        ProgressionTick 400; ProgressionTick 1000] [])
  = Some streamed.
Proof. vm_compute. repeat split; congruence. Qed.

(** ** Eviction *)

Lemma finalizedIndices_snoc l x :
  finalizedIndices (l ++ [x]) =
  finalizedIndices l ++
    (if decide (status x = finalized) then [Z.of_nat (length l)] else []).
Proof.
  unfold finalizedIndices. rewrite imap_app, filter_app. f_equal.
  simpl. rewrite Nat.add_0_r. case_decide.
  - rewrite filter_cons_True by lia. done.
  - rewrite filter_cons_False by (intros ?; lia). done.
Qed.

(* the last index that the source collects is the position of the last
   Finalized packet of the collection *)
Lemma last_finalizedIndices l :
  match last (finalizedIndices l) with
  | Some i =>
      ∃ l1 p l2, l = l1 ++ p :: l2 ∧ i = Z.of_nat (length l1) ∧
                 status p = finalized ∧
                 Forall (λ q, status q ≠ finalized) l2
  | None => Forall (λ q, status q ≠ finalized) l
  end.
Proof.
  induction l as [|x l IH] using rev_ind; [by apply Forall_nil_2 |].
  rewrite finalizedIndices_snoc. case_decide as Hx.
  - rewrite last_snoc. exists l, x, []. by repeat split.
  - rewrite app_nil_r. destruct (last (finalizedIndices l)) as [i|].
    + destruct IH as (l1 & p & l2 & -> & -> & Hp & Hl2).
      exists l1, p, (l2 ++ [x]). rewrite <- app_assoc.
      repeat split; [done |]. apply Forall_app. split; [done |].
      by apply Forall_singleton.
    + apply Forall_app. split; [done |]. by apply Forall_singleton.
Qed.

Lemma evictOverflow_sublist l : evictOverflow l `sublist_of` l.
Proof.
  unfold evictOverflow. destruct (_ >? _); [| done].
  destruct (last _).
  - apply sublist_delete.
  - rewrite removelast_firstn_len. apply sublist_take.
Qed.

Lemma evictOverflow_NoDup l : NoDup (ids l) → NoDup (ids (evictOverflow l)).
Proof.
  intros H. eapply sublist_NoDup; [exact H |].
  unfold ids. apply fmap_sublist, evictOverflow_sublist.
Qed.

(* on a collection with one packet per id the final deduplication of the
   tick changes nothing *)
Lemma progressionInterval_NoDup now prev :
  NoDup (ids prev) →
  progressionInterval now prev = evictOverflow (progressPacket now <$> prev).
Proof.
  intros H. unfold progressionInterval. apply dedup_NoDup_id.
  apply evictOverflow_NoDup. by rewrite progressPacket_ids.
Qed.

Lemma evictOverflow_finalized l :
  MAX_STREAMS < Z.of_nat (length l) →
  (∃ p, p ∈ l ∧ status p = finalized) →
  ∃ l1 p l2, l = l1 ++ p :: l2 ∧ status p = finalized ∧
             Forall (λ q, status q ≠ finalized) l2 ∧
             evictOverflow l = l1 ++ l2.
Proof.
  intros Hlen (p0 & Hin & Hp0). unfold evictOverflow.
  destruct (Z.gtb_spec (Z.of_nat (length l)) MAX_STREAMS); [| lia].
  pose proof (last_finalizedIndices l) as Hlast.
  destruct (last (finalizedIndices l)) as [i|].
  - destruct Hlast as (l1 & p & l2 & -> & -> & Hp & Hl2).
    exists l1, p, l2. repeat split; [done | done |].
    rewrite Nat2Z.id. apply delete_middle.
  - exfalso. rewrite Forall_forall in Hlast. by apply (Hlast p0).
Qed.

Lemma evictOverflow_none_finalized l :
  MAX_STREAMS < Z.of_nat (length l) →
  (∀ p, p ∈ l → status p ≠ finalized) →
  evictOverflow l = removelast l.
Proof.
  intros Hlen Hnone. unfold evictOverflow.
  destruct (Z.gtb_spec (Z.of_nat (length l)) MAX_STREAMS); [| lia].
  pose proof (last_finalizedIndices l) as Hlast.
  destruct (last (finalizedIndices l)) as [i|]; [| done].
  destruct Hlast as (l1 & p & l2 & -> & _ & Hp & _).
  exfalso. apply (Hnone p); [| done]. apply elem_of_app. right. left.
Qed.

Lemma evictOverflow_length l :
  MAX_STREAMS < Z.of_nat (length l) →
  length (evictOverflow l) = pred (length l).
Proof.
  intros Hlen. unfold evictOverflow.
  destruct (Z.gtb_spec (Z.of_nat (length l)) MAX_STREAMS); [| lia].
  pose proof (last_finalizedIndices l) as Hlast.
  destruct (last (finalizedIndices l)) as [i|].
  - destruct Hlast as (l1 & p & l2 & -> & -> & _).
    rewrite Nat2Z.id, delete_middle, !length_app. simpl. lia.
  - rewrite removelast_firstn_len, length_take. lia.
Qed.

(* ingestion puts the new packets in front of the ones that were there, in
   their order: the collection is newest first *)
Lemma dedupSeen_app_fresh a b :
  NoDup (ids b) → (∀ k, k ∈ ids a → k ∉ ids b) →
  dedupSeen (a ++ b) = dedupSeen a ++ ((λ p, (id p, p)) <$> b).
Proof.
  induction b as [|x b IH] using rev_ind; intros Hnd Hdisj.
  - by rewrite !app_nil_r.
  - rewrite ids_snoc in Hnd, Hdisj.
    apply NoDup_app in Hnd as (Hb & Hx & _).
    rewrite app_assoc, dedupSeen_snoc, IH; first last.
    { intros k Hk Hkb. apply (Hdisj k Hk), elem_of_app. by left. }
    { done. }
    assert (id x ∉ JsMap.keys (dedupSeen a ++ ((λ p, (id p, p)) <$> b)))
      as Hfresh.
    { unfold JsMap.keys. rewrite fmap_app, <- list_fmap_compose.
      intros [Ha|Hbx]%elem_of_app.
      - apply (dedupSeen_inv a) in Ha. apply (Hdisj _ Ha), elem_of_app.
        right. left.
      - apply (Hx _ Hbx). left. }
    unfold dedupStep. apply has_false in Hfresh as Hhas. rewrite Hhas. simpl.
    rewrite set_fresh by done. by rewrite fmap_app, <- app_assoc.
Qed.

Lemma mergeStreams_prepends newStreams prev :
  NoDup (ids prev) →
  ∃ fresh, (∀ p, p ∈ fresh → p ∈ newStreams ∧ id p ∉ ids prev) ∧
    mergeStreams newStreams prev =
      if Z.of_nat (length fresh) >? 0
      then take (Z.to_nat MAX_STREAMS) (deduplicateStreams fresh ++ prev)
      else prev.
Proof.
  intros Hnd. unfold mergeStreams.
  set (fresh := filter _ newStreams). exists fresh.
  assert (∀ p, p ∈ fresh → p ∈ newStreams ∧ id p ∉ ids prev) as Hfresh.
  { intros p [Hp ?]%list_elem_of_filter. split; [done |].
    by rewrite elem_of_list_to_set in Hp. }
  split; [done |]. destruct (_ >? 0); [| done].
  unfold deduplicateStreams, JsMap.values.
  rewrite dedupSeen_app_fresh, fmap_app, <- list_fmap_compose.
  - do 2 f_equal. rewrite <- (list_fmap_id prev) at 2.
    by apply list_fmap_ext.
  - done.
  - intros k (p & -> & Hp)%list_elem_of_fmap. by apply Hfresh.
Qed.

(** C5 (as amended).  When the collection after the stage advancement of a
    progression tick holds more than MAX_STREAMS packets, the tick evicts
    exactly one packet (and, the ids being distinct, returns the rest as it
    is).  If a Finalized packet is present, the evicted one is the Finalized
    packet at the greatest index: every packet behind it is not Finalized.
    The collection is newest first, so this is the least recently inserted
    Finalized packet.  If no Finalized packet is present, the last element
    is evicted. *)
Theorem eviction_choice (updated : list StreamPacket) :
  MAX_STREAMS < Z.of_nat (length updated) →
  length (evictOverflow updated) = pred (length updated) ∧
  (∀ now prev, updated = progressPacket now <$> prev → NoDup (ids prev) →
     progressionInterval now prev = evictOverflow updated) ∧
  ((∃ p, p ∈ updated ∧ status p = finalized) →
     ∃ l1 p l2, updated = l1 ++ p :: l2 ∧ status p = finalized ∧
                Forall (λ q, status q ≠ finalized) l2 ∧
                evictOverflow updated = l1 ++ l2) ∧
  ((∀ p, p ∈ updated → status p ≠ finalized) →
     evictOverflow updated = removelast updated).
Proof.
  intros Hlen. split; [by apply evictOverflow_length |].
  split; [intros now prev -> ?; by apply progressionInterval_NoDup |].
  split; [by apply evictOverflow_finalized |].
  by apply evictOverflow_none_finalized.
Qed.

Lemma eviction_choice_witness :
  MAX_STREAMS < Z.of_nat (length overflowSample) ∧
  length (evictOverflow overflowSample) = pred (length overflowSample).
Proof.
  assert (MAX_STREAMS < Z.of_nat (length overflowSample)) as H
    by (vm_compute; reflexivity).
  split; [exact H |]. exact (proj1 (eviction_choice overflowSample H)).
Defined.

(** C5, as stated, fails: in a newest-first collection of 101 Finalized
    packets the tick evicts the one at the end, created at 10000, and
    keeps the one at the front, created at 20000; the evicted packet is the
    least recently inserted Finalized packet, not the most recently
    inserted. *)
Lemma eviction_takes_oldest_finalized :
  MAX_STREAMS < Z.of_nat (length overflowSample) ∧
  overflowSample !! 0%nat = Some (samplePacket "0xf0" finalized 20000 20900) ∧
  overflowSample !! 100%nat
    = Some (samplePacket "0xf100" finalized 10000 10900) ∧
  timestamp (samplePacket "0xf100" finalized 10000 10900)
    < timestamp (samplePacket "0xf0" finalized 20000 20900) ∧
  evictOverflow overflowSample = take 100 overflowSample ∧
  progressionInterval 30000 overflowSample = take 100 overflowSample ∧
  lookupId "0xf0" (progressionInterval 30000 overflowSample)
    = Some (samplePacket "0xf0" finalized 20000 20900) ∧
  lookupId "0xf100" (progressionInterval 30000 overflowSample) = None.
Proof. vm_compute. repeat split; congruence. Qed.

Lemma finalized_survives_progress now prev :
  (length (filter (λ p, status p = finalized) prev) > 0)%nat →
  ∃ p, p ∈ progressPacket now <$> prev ∧ status p = finalized.
Proof.
  destruct (filter _ prev) as [|p r] eqn:E; simpl; [lia |]. intros _.
  assert (p ∈ filter (λ p, status p = finalized) prev) as Hp
    by (rewrite E; left).
  apply list_elem_of_filter in Hp as [Hf Hin].
  exists (progressPacket now p). split; [by apply list_elem_of_fmap_2 |].
  by apply progressPacket_monotone.
Qed.

(** C6 (as amended).  If the collection holds 105 packets with distinct
    ids, 10 of them Finalized, the next progression tick removes one
    Finalized packet, the last one in collection order after the stage
    advancement, and leaves 104 packets: a tick evicts a single packet. *)
Theorem scenario4_overflow (now : Z) (prev : list StreamPacket) :
  length prev = 105%nat →
  NoDup (ids prev) →
  length (filter (λ p, status p = finalized) prev) = 10%nat →
  length (progressionInterval now prev) = 104%nat ∧
  ∃ l1 p l2, progressPacket now <$> prev = l1 ++ p :: l2 ∧
             status p = finalized ∧
             Forall (λ q, status q ≠ finalized) l2 ∧
             progressionInterval now prev = l1 ++ l2.
Proof.
  intros Hlen Hnd Hfin.
  assert (MAX_STREAMS < Z.of_nat (length (progressPacket now <$> prev)))
    as Hover by (rewrite length_fmap, Hlen; unfold MAX_STREAMS; lia).
  rewrite progressionInterval_NoDup by done. split.
  - rewrite evictOverflow_length, length_fmap, Hlen by done. done.
  - apply evictOverflow_finalized; [done |].
    apply finalized_survives_progress. lia.
Qed.

Lemma scenario4_overflow_witness :
  length scenario4Sample = 105%nat ∧
  length (filter (λ p, status p = finalized) scenario4Sample) = 10%nat ∧
  length (progressionInterval 5100 scenario4Sample) = 104%nat.
Proof.
  assert (length scenario4Sample = 105%nat) as Hlen by (vm_compute; done).
  assert (NoDup (ids scenario4Sample)) as Hnd.
  { apply (bool_decide_unpack _). vm_compute. exact I. }
  assert (length (filter (λ p, status p = finalized) scenario4Sample)
          = 10%nat) as Hfin by (vm_compute; done).
  split; [exact Hlen |]. split; [exact Hfin |].
  exact (proj1 (scenario4_overflow 5100 scenario4Sample Hlen Hnd Hfin)).
Defined.

(** C6, as stated, fails: from 105 packets of which 10 are Finalized the
    tick leaves 104 packets, not 100. *)
Lemma scenario4_leaves_104 :
  length scenario4Sample = 105%nat ∧
  length (filter (λ p, status p = finalized) scenario4Sample) = 10%nat ∧
  length (progressionInterval 5100 scenario4Sample) = 104%nat ∧
  length (progressionInterval 5100 scenario4Sample) ≠ 100%nat ∧
  length (filter (λ p, status p = finalized)
            (progressionInterval 5100 scenario4Sample)) = 9%nat.
Proof. vm_compute. repeat split; congruence. Qed.

(** ** Connection status of the polling engines *)

(* a failed fetch is atomic: only the connection status changes *)
Lemma fetch_error_atomic cfg now src st message :
  getBlockNumber src = Throws message ∨
  (∃ n, getBlockNumber src = Returns n ∧ lastBlockNumber st ≠ 0 ∧
        lastBlockNumber st < n ∧ getBlock src n = Throws message) →
  streams (fetchAndProcessBlock cfg now src st) = streams st ∧
  lastBlockNumber (fetchAndProcessBlock cfg now src st) = lastBlockNumber st ∧
  conn_status (connectionInfo (fetchAndProcessBlock cfg now src st)) = error ∧
  conn_error (connectionInfo (fetchAndProcessBlock cfg now src st))
    = Some message.
Proof.
  unfold fetchAndProcessBlock. intros [->|(n & -> & H0 & Hn & ->)]; [done |].
  destruct (Z.eqb_spec (lastBlockNumber st) 0); [done |].
  by destruct (Z.gtb_spec n (lastBlockNumber st)); [| lia].
Qed.

(* the status returns to connected when the engine sets its cursor or
   processes a new block *)
Lemma fetch_recovers_on_new_block cfg now src st n b :
  getBlockNumber src = Returns n → getBlock src n = Returns b →
  lastBlockNumber st = 0 ∨ lastBlockNumber st < n →
  conn_status (connectionInfo (fetchAndProcessBlock cfg now src st))
    = connected.
Proof.
  unfold fetchAndProcessBlock. intros -> -> Hc.
  destruct (Z.eqb_spec (lastBlockNumber st) 0); [done |].
  by destruct (Z.gtb_spec n (lastBlockNumber st)); [| lia].
Qed.


(* the fallback poller of the watching hook resets the status on every
   successful poll *)
Lemma pollBlocks_recovers cfg now src st n :
  getBlockNumber src = Returns n →
  lastBlockNumber st = 0 ∨ n ≤ lastBlockNumber st ∨
    (∃ b, getBlock src n = Returns b) →
  conn_status (connectionInfo (pollBlocks cfg now src st)) = polling ∧
  conn_error (connectionInfo (pollBlocks cfg now src st)) = None.
Proof.
  unfold pollBlocks. intros -> Hc.
  destruct (Z.eqb_spec (lastBlockNumber st) 0); [done |].
  destruct (Z.gtb_spec n (lastBlockNumber st)); [| done].
  destruct Hc as [?|[?|[b ->]]]; [done | lia | done].
Qed.

(* every engine tick acts on the collection as a run of at most one tick *)
Lemma fetchAndProcessBlock_streams cfg now src st :
  ∃ ticks, streams (fetchAndProcessBlock cfg now src st)
           = runTicks cfg ticks (streams st).
Proof.
  unfold fetchAndProcessBlock. destruct (getBlockNumber src) as [m|n].
  - by exists [].
  - destruct (_ =? 0); [by exists [] |].
    destruct (_ >? _); [| by exists []].
    destruct (getBlock src n) as [m|b]; [by exists [] |].
    by exists [IngestionTick PollingHook now b].
Qed.

Lemma pollBlocks_streams cfg now src st :
  ∃ ticks, streams (pollBlocks cfg now src st)
           = runTicks cfg ticks (streams st).
Proof.
  unfold pollBlocks. destruct (getBlockNumber src) as [m|n].
  - by exists [].
  - destruct (_ =? 0); [by exists [] |].
    destruct (_ >? _); [| by exists []].
    destruct (getBlock src n) as [m|b]; [by exists [] |].
    by exists [IngestionTick WatchHook now b].
Qed.

Lemma progressEngine_streams cfg now st :
  streams (progressEngine now st)
  = runTicks cfg [ProgressionTick now] (streams st).
Proof. done. Qed.

(** C7.  Evaluation of the polling-only engine on the failing run.  On
    tick N the head fetch throws: the status is "error" with the captured
    message and the collection is the one of tick N-1.  On tick N+1 the
    fetch succeeds and reports the head that is already processed: the
    engine state is unchanged, so the status is still "error" with the old
    message, where the claim has it return to connected.  The status does
    return to connected when tick N+1 reports a new head, and the fallback
    poller of the watching hook resets it on the same replies. *)
Theorem error_status_kept_on_unchanged_head :
  conn_status (connectionInfo engineAt101) = connected ∧
  lastBlockNumber engineAt101 = 101 ∧
  length (streams engineAt101) = 3%nat ∧
  (* tick N *)
  conn_status (connectionInfo engineAfterError) = error ∧
  conn_error (connectionInfo engineAfterError) = Some "network error" ∧
  streams engineAfterError = streams engineAt101 ∧
  (* tick N+1, head unchanged *)
  fetchAndProcessBlock somniaTestnet 10000
    (headReply 101 (sampleBlock 101 "0xa" 3)) engineAfterError
    = engineAfterError ∧
  conn_status
    (connectionInfo
       (fetchAndProcessBlock somniaTestnet 10000
          (headReply 101 (sampleBlock 101 "0xa" 3)) engineAfterError))
    = error ∧
  (* tick N+1, new head *)
  conn_status
    (connectionInfo
       (fetchAndProcessBlock somniaTestnet 10000
          (headReply 102 (sampleBlock 102 "0xb" 3)) engineAfterError))
    = connected ∧
  (* the sibling poller, head unchanged *)
  conn_status
    (connectionInfo
       (pollBlocks somniaTestnet 10000
          (headReply 101 (sampleBlock 101 "0xa" 3)) engineAfterError))
    = polling.
Proof. vm_compute. repeat split; congruence. Qed.

(** ** Event classification *)

Lemma txToPacket_eventType h cfg now block index tx :
  eventType (txToPacket h cfg now block index tx) =
  if (0.01 <? txValue tx)%float then "Transfer" else "Transaction".
Proof. done. Qed.

Lemma txToPacket_data_type h cfg now block index tx :
  dataField "type" (data (txToPacket h cfg now block index tx)) =
  Some (DStr (if js_truthy (tx_to tx) then "Transfer" else "Contract Deploy")).
Proof. by destruct h. Qed.

(** C8 (as amended).  For every transaction mapped to a packet, eventType
    is "Transfer" when the decoded value [Number(value) / 1e18] strictly
    exceeds 0.01 and "Transaction" otherwise, whether or not a recipient is
    present; eventType is never "Contract Deploy": that string is the
    [type] field of the data payload when no recipient is present, which
    is "Transfer" otherwise.  A value of 0.02 native units
    (2 * 10^16 wei) gives eventType "Transfer", a value of 0.001
    (10^15 wei) gives "Transaction". *)
Theorem event_classification (h : Hook) (cfg : NetworkConfig) (now : Z)
    (block : Block) (index : nat) (tx : Tx) :
  eventType (txToPacket h cfg now block index tx) =
    (if (0.01 <? txValue tx)%float then "Transfer" else "Transaction") ∧
  eventType (txToPacket h cfg now block index tx) ≠ "Contract Deploy" ∧
  dataField "type" (data (txToPacket h cfg now block index tx)) =
    Some (DStr (if js_truthy (tx_to tx) then "Transfer"
                else "Contract Deploy")) ∧
  (tx_value tx = Some 20000000000000000 →
     txValue tx = 0.02%float ∧
     eventType (txToPacket h cfg now block index tx) = "Transfer") ∧
  (tx_value tx = Some 1000000000000000 →
     txValue tx = 0.001%float ∧
     eventType (txToPacket h cfg now block index tx) = "Transaction").
Proof.
  split; [done |]. split.
  { simpl. unfold isHighValue. by destruct (_ <? _)%float. }
  split; [apply txToPacket_data_type |].
  split; intros Hv; simpl; unfold isHighValue, txValue; rewrite Hv;
    by vm_compute.
Qed.

Lemma event_classification_witness :
  eventType (txToPacket WatchHook somniaTestnet 1000
               (sampleBlock 101 "0xa" 1) 0
               (sampleTx "0xa0" 20000000000000000)) = "Transfer" ∧
  eventType (txToPacket WatchHook somniaTestnet 1000
               (sampleBlock 101 "0xa" 1) 0
               (sampleTx "0xa0" 1000000000000000)) = "Transaction".
Proof.
  split.
  - exact (proj2 (proj1 (proj2 (proj2 (proj2
             (event_classification WatchHook somniaTestnet 1000
                (sampleBlock 101 "0xa" 1) 0
                (sampleTx "0xa0" 20000000000000000)))))
             eq_refl)).
  - exact (proj2 (proj2 (proj2 (proj2 (proj2
             (event_classification WatchHook somniaTestnet 1000
                (sampleBlock 101 "0xa" 1) 0
                (sampleTx "0xa0" 1000000000000000)))))
             eq_refl)).
Defined.

(** C8, as stated, fails: a transaction without a recipient gets eventType
    "Transaction" (or "Transfer" when its value exceeds 0.01), not
    "Contract Deploy". *)
Lemma deploy_is_not_an_eventType :
  tx_to deployTx = None ∧
  eventType (txToPacket WatchHook somniaTestnet 1000
               (sampleBlock 101 "0xa" 1) 0 deployTx) = "Transaction" ∧
  eventType (txToPacket PollingHook somniaTestnet 1000
               (sampleBlock 101 "0xa" 1) 0 deployTx) = "Transaction" ∧
  eventType (txToPacket WatchHook somniaTestnet 1000
               (sampleBlock 101 "0xa" 1) 0 deployTx) ≠ "Contract Deploy" ∧
  dataField "type"
    (data (txToPacket WatchHook somniaTestnet 1000
             (sampleBlock 101 "0xa" 1) 0 deployTx))
    = Some (DStr "Contract Deploy").
Proof. vm_compute. repeat split; congruence. Qed.

(** * Further properties of the engine *)

(** ** Status table *)

(** X1.  [getNextStatus] moves a status one step up the order and stops at
    finalized: the order of the result is min(3, order + 1), finalized is
    the only status it maps to itself, and three applications reach
    finalized from every status. *)
Theorem getNextStatus_steps (s : StreamStatus) :
  statusOrder (getNextStatus s) = Z.min 3 (statusOrder s + 1) ∧
  (getNextStatus s = s ↔ s = finalized) ∧
  getNextStatus (getNextStatus (getNextStatus s)) = finalized.
Proof. destruct s; simpl; repeat split; (done || lia). Qed.

(** ** More on deduplication *)

(** X2.  [deduplicateStreams] is idempotent on every input. *)
Theorem dedup_twice (l : list StreamPacket) :
  deduplicateStreams (deduplicateStreams l) = deduplicateStreams l.
Proof. apply dedup_NoDup_id, dedup_NoDup. Qed.

Lemma dedupStep_keys l m x :
  dedupInv l m →
  JsMap.keys (dedupStep m x) =
  JsMap.keys m ++ (if decide (id x ∈ ids l) then [] else [id x]).
Proof.
  intros (Hnd & Hkeys & Hent). unfold dedupStep.
  destruct (JsMap.has (id x) m) eqn:Hhas; simpl.
  - apply has_true in Hhas as Hin. rewrite decide_True by (by apply Hkeys).
    rewrite app_nil_r. destruct (JsMap.get (id x) m); [| done].
    destruct (_ >? _); [by apply keys_set_present | done].
  - apply has_false in Hhas as Hnin.
    rewrite decide_False by (by rewrite <- Hkeys).
    rewrite set_fresh by done. unfold JsMap.keys. by rewrite fmap_app.
Qed.

(** X3.  Appending a packet to the input never reorders the output of
    [deduplicateStreams]: the output ids are those of the shorter input,
    followed by the id of the appended packet when it is new; a packet with
    a new id is appended as it is, and a packet whose status order does not
    exceed that of an earlier packet with its id changes nothing. *)
Theorem dedup_append (l : list StreamPacket) (x : StreamPacket) :
  ids (deduplicateStreams (l ++ [x])) =
    ids (deduplicateStreams l)
    ++ (if decide (id x ∈ ids l) then [] else [id x]) ∧
  (id x ∉ ids l →
     deduplicateStreams (l ++ [x]) = deduplicateStreams l ++ [x]) ∧
  (∀ q, q ∈ l → id q = id x →
        statusOrder (status x) ≤ statusOrder (status q) →
        deduplicateStreams (l ++ [x]) = deduplicateStreams l).
Proof.
  pose proof (dedupSeen_inv l) as Hinv.
  split; [| split].
  - rewrite !dedup_ids, dedupSeen_snoc. by apply dedupStep_keys.
  - intros Hfresh. unfold deduplicateStreams, JsMap.values.
    rewrite dedupSeen_snoc. unfold dedupStep.
    destruct Hinv as (_ & Hkeys & _).
    assert (id x ∉ JsMap.keys (dedupSeen l)) as Hnin by (by rewrite Hkeys).
    apply has_false in Hnin as Hhas. rewrite Hhas. simpl.
    rewrite set_fresh by done. by rewrite fmap_app.
  - intros q Hq Hid Hle. unfold deduplicateStreams. f_equal.
    rewrite dedupSeen_snoc. unfold dedupStep.
    destruct Hinv as (Hnd & Hkeys & Hent).
    assert (id x ∈ JsMap.keys (dedupSeen l)) as Hin.
    { apply Hkeys. rewrite <- Hid. by apply (list_elem_of_fmap_2 id). }
    apply has_true in Hin as Hhas. rewrite Hhas. simpl.
    destruct (has_get _ _ Hhas) as [e He]. rewrite He.
    apply get_elem, Hent in He as [Hide Hret].
    pose proof (retainedFrom_max _ _ _ Hret Hq) as Hmax.
    rewrite Hide in Hmax. specialize (Hmax Hid).
    by destruct (Z.gtb_spec (statusOrder (status x)) (statusOrder (status e)));
      [lia |].
Qed.

Lemma dedup_append_witness :
  deduplicateStreams
    (take 2 scenario4Sample ++ [samplePacket "0xnew" indexed 9000 9300])
  = deduplicateStreams (take 2 scenario4Sample)
    ++ [samplePacket "0xnew" indexed 9000 9300] ∧
  deduplicateStreams
    (take 2 scenario4Sample ++ [samplePacket "0xs1" streamed 9000 9000])
  = deduplicateStreams (take 2 scenario4Sample).
Proof.
  split.
  - apply (dedup_append (take 2 scenario4Sample)).
    vm_compute. intros H.
    repeat (apply elem_of_cons in H as [H|H]; [discriminate |]).
    by apply elem_of_nil in H.
  - apply (proj2 (proj2 (dedup_append (take 2 scenario4Sample)
                           (samplePacket "0xs1" streamed 9000 9000)))
             (samplePacket "0xs1" streamed 5000 5000)).
    + vm_compute. right. left.
    + reflexivity.
    + vm_compute. discriminate.
Defined.

(** X4.  [deduplicateStreams] neither invents nor loses ids nor
    downgrades: every output packet is one of the input packets, the output
    is no longer than the input, and every input packet is covered by the
    output packet with its id, whose status order is at least as great. *)
Theorem dedup_covers (l : list StreamPacket) :
  (∀ p, p ∈ deduplicateStreams l → p ∈ l) ∧
  (length (deduplicateStreams l) ≤ length l)%nat ∧
  (∀ q, q ∈ l →
     ∃ p, p ∈ deduplicateStreams l ∧ id p = id q ∧
          statusOrder (status q) ≤ statusOrder (status p)).
Proof.
  split; [apply dedup_elem_of |]. split; [apply dedup_length |].
  intros q Hq.
  assert (id q ∈ ids (deduplicateStreams l)) as Hin.
  { apply dedup_ids_iff. by apply (list_elem_of_fmap_2 id). }
  apply list_elem_of_fmap in Hin as (p & Hid & Hp).
  exists p. split; [done |]. split; [done |].
  apply (retainedFrom_max l); [by apply dedup_retained | done | done].
Qed.

Lemma dedup_covers_witness :
  ∃ p, p ∈ deduplicateStreams
             [samplePacket "0xa0" streamed 1000 1000;
              samplePacket "0xa0" consolidated 1000 1600] ∧
       id p = "0xa0"%string ∧
       statusOrder streamed ≤ statusOrder (status p).
Proof.
  apply (proj2 (proj2 (dedup_covers
                         [samplePacket "0xa0" streamed 1000 1000;
                          samplePacket "0xa0" consolidated 1000 1600]))
           (samplePacket "0xa0" streamed 1000 1000)).
  left.
Defined.

(** ** More on ingestion *)

Lemma toLowerCase_idemp s : toLowerCase (toLowerCase s) = toLowerCase s.
Proof.
  induction s as [|c r IH]; [done |]. simpl. f_equal; [| done].
  unfold lowerAscii.
  destruct ((65 <=? N_of_ascii c)%N && (N_of_ascii c <=? 90)%N) eqn:E.
  - apply andb_true_iff in E as [E1%N.leb_le E2%N.leb_le].
    rewrite N_ascii_embedding by lia.
    destruct (N.leb_spec (N_of_ascii c + 32) 90); [lia |].
    by rewrite andb_false_r.
  - by rewrite E.
Qed.



Lemma uniqueNew_filter (newStreams prev : list StreamPacket) :
  filter (λ s, id s ∉ (list_to_set (id <$> prev) : gset string)) newStreams
  = filter (λ s, id s ∉ ids prev) newStreams.
Proof.
  apply list_filter_iff. intros s. unfold ids.
  by rewrite elem_of_list_to_set.
Qed.

(** X6.  The [setStreams] updater puts the accepted new packets, the ones
    whose id is not in the collection, deduplicated and in their order, in
    front of the existing packets, which keep their order and content; the
    truncation to MAX_STREAMS drops packets from the end only, and when
    everything fits nothing is dropped. *)
Theorem mergeStreams_newest_first (newStreams prev : list StreamPacket) :
  NoDup (ids prev) →
  mergeStreams newStreams prev =
    match filter (λ s, id s ∉ ids prev) newStreams with
    | [] => prev
    | fresh =>
        take (Z.to_nat MAX_STREAMS) (deduplicateStreams fresh ++ prev)
    end ∧
  mergeStreams newStreams prev `prefix_of`
    deduplicateStreams (filter (λ s, id s ∉ ids prev) newStreams) ++ prev ∧
  (Z.of_nat (length (filter (λ s, id s ∉ ids prev) newStreams)
             + length prev) ≤ MAX_STREAMS →
   mergeStreams newStreams prev =
     deduplicateStreams (filter (λ s, id s ∉ ids prev) newStreams) ++ prev).
Proof.
  intros Hnd.
  assert (mergeStreams newStreams prev =
    match filter (λ s, id s ∉ ids prev) newStreams with
    | [] => prev
    | fresh =>
        take (Z.to_nat MAX_STREAMS) (deduplicateStreams fresh ++ prev)
    end) as Heq.
  { unfold mergeStreams. rewrite uniqueNew_filter.
    destruct (filter (λ s, id s ∉ ids prev) newStreams) as [|f fresh']
      eqn:E; [done |].
    assert (∀ p, p ∈ f :: fresh' → id p ∉ ids prev) as Hfresh.
    { intros p Hp. rewrite <- E in Hp.
      by apply list_elem_of_filter in Hp as [? ?]. }
    destruct (Z.gtb_spec (Z.of_nat (length (f :: fresh'))) 0);
      [| simpl in *; lia].
    f_equal. unfold deduplicateStreams, JsMap.values.
    rewrite dedupSeen_app_fresh, fmap_app, <- list_fmap_compose.
    - do 2 f_equal. rewrite <- (list_fmap_id prev) at 2.
      by apply list_fmap_ext.
    - done.
    - intros k (p & -> & Hp)%list_elem_of_fmap. by apply Hfresh. }
  split; [exact Heq |]. split.
  - rewrite Heq. destruct (filter _ newStreams) as [|f fresh'] eqn:E.
    + exists []. by rewrite app_nil_r.
    + apply prefix_take.
  - intros Hroom. rewrite Heq.
    destruct (filter _ newStreams) as [|f fresh'] eqn:E; [done |].
    apply take_ge. rewrite length_app.
    pose proof (dedup_length (f :: fresh')). unfold MAX_STREAMS in *. lia.
Qed.

Lemma mergeStreams_newest_first_witness :
  mergeStreams [samplePacket "0xnew" streamed 9000 9000]
               (take 3 scenario4Sample)
  = samplePacket "0xnew" streamed 9000 9000 :: take 3 scenario4Sample.
Proof.
  assert (NoDup (ids (take 3 scenario4Sample))) as H.
  { apply (bool_decide_unpack _). vm_compute. exact I. }
  rewrite (proj2 (proj2 (mergeStreams_newest_first
                           [samplePacket "0xnew" streamed 9000 9000]
                           (take 3 scenario4Sample) H))).
  - vm_compute. reflexivity.
  - vm_compute. discriminate.
Defined.

Lemma txsToShow_length block :
  length (txsToShow block)
  = Nat.min (Z.to_nat MAX_TX_PER_BLOCK) (length (blk_transactions block)).
Proof. unfold txsToShow. apply length_take. Qed.

Lemma newStreams_length h cfg now block :
  length (newStreams h cfg now block) = length (txsToShow block).
Proof. unfold newStreams. apply length_imap. Qed.

(** X7.  One block contributes at most MAX_TX_PER_BLOCK = 50 packets: the
    new packets are as many as the transactions of the block, capped at 50,
    and processing a block lengthens the collection by at most 50. *)
Theorem ingestion_bounded (h : Hook) (cfg : NetworkConfig) (now : Z)
    (block : Block) (prev : list StreamPacket) :
  MAX_TX_PER_BLOCK = 50 ∧
  length (newStreams h cfg now block)
    = Nat.min 50 (length (blk_transactions block)) ∧
  (length (ingestBlock h cfg now block prev) ≤ length prev + 50)%nat.
Proof.
  split; [done |]. split.
  { by rewrite newStreams_length, txsToShow_length. }
  unfold ingestBlock. destruct (_ >? 0); [| lia].
  unfold mergeStreams. destruct (_ >? 0); [| lia].
  rewrite length_take.
  set (u := filter _ _).
  pose proof (dedup_length (u ++ prev)) as Hd. rewrite length_app in Hd.
  pose proof (length_filter
    (λ s, id s ∉ (list_to_set (id <$> prev) : gset string))
    (newStreams h cfg now block)) as Hf.
  fold u in Hf. rewrite newStreams_length, txsToShow_length in Hf.
  unfold MAX_TX_PER_BLOCK in Hf. lia.
Qed.

(** ** Invariants of the packets of a run *)

Lemma txToPacket_invariant h cfg now block index tx :
  packetInvariant (txToPacket h cfg now block index tx).
Proof.
  repeat split; simpl.
  - apply toLowerCase_idemp.
  - destruct (isHighValue tx); auto.
Qed.

Lemma progressPacket_invariant now p :
  packetInvariant p → packetInvariant (progressPacket now p).
Proof.
  intros (Hc & Hh & Hl & He). unfold progressPacket.
  case_decide as Hf; [by rewrite Hf |].
  destruct (_ && _); [| done]. case_decide; [| done].
  repeat split; simpl; try done.
  rewrite Hc. destruct (status p); simpl; done.
Qed.

Lemma mergeStreams_Forall (P : StreamPacket → Prop) newStreams prev :
  Forall P newStreams → Forall P prev →
  Forall P (mergeStreams newStreams prev).
Proof.
  intros Hn Hp. unfold mergeStreams. destruct (_ >? 0); [| done].
  apply Forall_take, Forall_forall. intros p Hin%dedup_elem_of.
  apply elem_of_app in Hin as [Hin|Hin].
  - apply list_elem_of_filter in Hin as [_ Hin].
    by apply (proj1 (Forall_forall _ _) Hn).
  - by apply (proj1 (Forall_forall _ _) Hp).
Qed.

Lemma applyTick_invariant cfg s t :
  Forall packetInvariant s → Forall packetInvariant (applyTick cfg s t).
Proof.
  intros Hs. destruct t as [h now block|now]; simpl.
  - unfold ingestBlock. destruct (_ >? 0); [| done].
    apply mergeStreams_Forall; [| done].
    apply Forall_forall. intros p (i & tx & _ & ->)%newStreams_elem.
    apply txToPacket_invariant.
  - unfold progressionInterval. apply Forall_forall.
    intros p Hin%dedup_elem_of.
    assert (p ∈ progressPacket now <$> s) as Hin'.
    { by apply (sublist_subseteq _ _ (evictOverflow_sublist _)). }
    apply list_elem_of_fmap in Hin' as (q & -> & Hq).
    apply progressPacket_invariant.
    by apply (proj1 (Forall_forall _ _) Hs).
Qed.

(** X8.  Every packet of every run from the empty collection has its
    confirmation counter equal to the order of its status (0 for streamed
    up to 3 for finalized, so between 0 and 3), its hash equal to its id,
    an id in lower case, and the event type Transfer or Transaction. *)
Theorem run_packet_invariant (cfg : NetworkConfig) (ticks : list Tick)
    (p : StreamPacket) :
  p ∈ runTicks cfg ticks [] →
  packetInvariant p ∧ 0 ≤ confirmations p ≤ 3.
Proof.
  assert (Forall packetInvariant (runTicks cfg ticks [])) as H.
  { induction ticks as [|t ticks IH] using rev_ind; [apply Forall_nil_2 |].
    rewrite runTicks_snoc. by apply applyTick_invariant. }
  intros Hp. pose proof (proj1 (Forall_forall _ _) H p Hp) as Hinv.
  split; [done |]. destruct Hinv as (-> & _). destruct (status p); simpl; lia.
Qed.

Lemma run_packet_invariant_witness :
  ∃ p, p ∈ runTicks somniaTestnet runFinalizeOne [] ∧
       packetInvariant p ∧ 0 ≤ confirmations p ≤ 3.
Proof.
  assert (∃ p, p ∈ runTicks somniaTestnet runFinalizeOne [])
    as [p Hp] by (vm_compute; eexists; left).
  exists p. split; [exact Hp |].
  exact (run_packet_invariant somniaTestnet runFinalizeOne p Hp).
Defined.

(** X9.  In every run from the empty collection the ids are pairwise
    distinct: at most one packet per id is live. *)
Theorem run_one_packet_per_id (cfg : NetworkConfig) (ticks : list Tick) :
  NoDup (ids (runTicks cfg ticks [])).
Proof. apply (runTicks_wellFormed cfg ticks [] wellFormed_nil). Qed.

(** X10.  On the collections of a run a progression tick neither removes
    nor adds nor reorders packets: the eviction branch is never taken, the
    ids after the tick are the ids before it, in the same order. *)
Theorem progression_keeps_ids (cfg : NetworkConfig) (ticks : list Tick)
    (now : Z) :
  evictOverflow (progressPacket now <$> runTicks cfg ticks [])
    = progressPacket now <$> runTicks cfg ticks [] ∧
  ids (progressionInterval now (runTicks cfg ticks []))
    = ids (runTicks cfg ticks []) ∧
  length (progressionInterval now (runTicks cfg ticks []))
    = length (runTicks cfg ticks []).
Proof.
  pose proof (runTicks_wellFormed cfg ticks [] wellFormed_nil) as Hwf.
  split.
  { apply evictOverflow_within. rewrite length_fmap. apply Hwf. }
  rewrite progressionInterval_wellFormed by done.
  split; [apply progressPacket_ids | apply length_fmap].
Qed.

(** ** Timing of the stages *)

Lemma progressPacket_step_bound now p :
  statusOrder (status (progressPacket now p)) ≤ statusOrder (status p) + 1.
Proof.
  unfold progressPacket. case_decide; [simpl; lia |].
  destruct (_ && _); [| lia]. case_decide; [| lia].
  simpl. destruct (status p); simpl; lia.
Qed.

(** X11.  A packet moves at most one stage per progression tick, and a
    freshly streamed packet whose lastStageTime is not 0 is finalized by
    three ticks that each come at least STAGE_DURATION after the previous
    stage change: it then has three more confirmations and the time of the
    third tick as lastStageTime. *)
Theorem three_due_ticks_finalize (p : StreamPacket) (n1 n2 n3 : Z) :
  (∀ now q,
     statusOrder (status (progressPacket now q))
       ≤ statusOrder (status q) + 1) ∧
  (status p = streamed → lastStageTime p ≠ 0 → n1 ≠ 0 → n2 ≠ 0 →
   STAGE_DURATION ≤ n1 - lastStageTime p →
   STAGE_DURATION ≤ n2 - n1 → STAGE_DURATION ≤ n3 - n2 →
   progressMany [n1; n2; n3] p =
     mkPacket (id p) finalized (timestamp p) (eventType p) (source p)
              (data p) (confirmations p + 3) (hash p) n3 (blockNumber p)).
Proof.
  split; [intros; apply progressPacket_step_bound |].
  intros Hs H0 H1 H2 Hd1 Hd2 Hd3. unfold progressMany. simpl.
  assert (progressPacket n1 p =
    mkPacket (id p) indexed (timestamp p) (eventType p) (source p) (data p)
             (confirmations p + 1) (hash p) n1 (blockNumber p)) as ->.
  { rewrite progressPacket_due; [by rewrite Hs | by rewrite Hs | done..]. }
  rewrite (progressPacket_due n2);
    [simpl | simpl; discriminate | done..].
  rewrite (progressPacket_due n3);
    [simpl | simpl; discriminate | done..].
  f_equal. lia.
Qed.

Lemma three_due_ticks_finalize_witness :
  status (progressMany [1400; 1800; 2200]
            (txToPacket PollingHook somniaTestnet 1000
               (sampleBlock 101 "0xa" 1) 0 (sampleTx "0xa0" 1000)))
  = finalized.
Proof.
  rewrite (proj2 (three_due_ticks_finalize
                    (txToPacket PollingHook somniaTestnet 1000
                       (sampleBlock 101 "0xa" 1) 0 (sampleTx "0xa0" 1000))
                    1400 1800 2200));
    first [reflexivity | discriminate | (vm_compute; discriminate)].
Defined.

(** ** The engines as runs on the collection *)

Lemma onBlock_streams cfg now number src st :
  ∃ ticks, streams (onBlock cfg now number src st)
           = runTicks cfg ticks (streams st).
Proof.
  unfold onBlock. destruct (getBlock src number) as [m|b]; [by exists [] |].
  by eexists [IngestionTick WatchHook now _].
Qed.

Lemma setupPolling_streams cfg now src st :
  ∃ ticks, streams (setupPolling cfg now src st)
           = runTicks cfg ticks (streams st).
Proof.
  unfold setupPolling.
  destruct (pollBlocks_streams cfg now src
    {| streams := streams st;
       connectionInfo := withStatusMethod polling http (connectionInfo st);
       lastBlockNumber := lastBlockNumber st |}) as [c Hc].
  by exists c.
Qed.

Lemma applyEngineTick_streams cfg st t :
  ∃ ticks, streams (applyEngineTick cfg st t)
           = runTicks cfg ticks (streams st).
Proof.
  destruct t; simpl.
  - apply fetchAndProcessBlock_streams.
  - apply pollBlocks_streams.
  - apply onBlock_streams.
  - unfold onWatchError.
    destruct (setupPolling_streams cfg now src
      {| streams := streams st;
         connectionInfo := withError message (connectionInfo st);
         lastBlockNumber := lastBlockNumber st |}) as [c Hc].
    by exists c.
  - by exists [ProgressionTick now].
Qed.

Lemma runTicks_app cfg t1 t2 s :
  runTicks cfg (t1 ++ t2) s = runTicks cfg t2 (runTicks cfg t1 s).
Proof. unfold runTicks. apply fold_left_app. Qed.

Lemma runEngine_snoc cfg ticks t st :
  runEngine cfg (ticks ++ [t]) st
  = applyEngineTick cfg (runEngine cfg ticks st) t.
Proof. unfold runEngine. by rewrite fold_left_app. Qed.

Lemma runEngine_streams cfg ticks st :
  ∃ cticks, streams (runEngine cfg ticks st)
            = runTicks cfg cticks (streams st).
Proof.
  induction ticks as [|t ticks [c IH]] using rev_ind; [by exists [] |].
  rewrite runEngine_snoc.
  destruct (applyEngineTick_streams cfg (runEngine cfg ticks st) t)
    as [c' ->].
  exists (c ++ c'). by rewrite runTicks_app, IH.
Qed.

(** X12.  Whatever the block source replies and however the ticks of the
    hooks interleave (polling, block notifications, fallback after a
    watch error, progression), the collection an engine holds is one that
    a run of ingestion and progression ticks produces from the empty
    collection; so it has one packet per id and at most MAX_STREAMS
    packets. *)
Theorem engine_collection_reachable (cfg : NetworkConfig)
    (m : ConnectionMethod) (ticks : list EngineTick) :
  reachable cfg (streams (runEngine cfg ticks (initialEngine m cfg))) ∧
  NoDup (ids (streams (runEngine cfg ticks (initialEngine m cfg)))) ∧
  Z.of_nat (length (streams (runEngine cfg ticks (initialEngine m cfg))))
    ≤ MAX_STREAMS.
Proof.
  destruct (runEngine_streams cfg ticks (initialEngine m cfg)) as [c Hc].
  simpl in Hc. assert (reachable cfg
    (streams (runEngine cfg ticks (initialEngine m cfg)))) as Hr
    by (by exists c).
  split; [done |]. by apply reachable_wellFormed in Hr as [? ?].
Qed.

(** ** Cursor and connection status *)

(** X13.  The first successful head fetch of the polling-only hook (the
    cursor is still 0) only records the head: the cursor becomes the head,
    no packet is created, the status becomes connected with the time of the
    fetch, and the error message, if a failed fetch left one, is kept. *)
Theorem first_fetch_sets_cursor (cfg : NetworkConfig) (now : Z)
    (src : BlockSource) (st : Engine) (head : Z) :
  lastBlockNumber st = 0 → getBlockNumber src = Returns head →
  lastBlockNumber (fetchAndProcessBlock cfg now src st) = head ∧
  streams (fetchAndProcessBlock cfg now src st) = streams st ∧
  conn_status (connectionInfo (fetchAndProcessBlock cfg now src st))
    = connected ∧
  conn_lastBlockTime (connectionInfo (fetchAndProcessBlock cfg now src st))
    = Some now ∧
  conn_error (connectionInfo (fetchAndProcessBlock cfg now src st))
    = conn_error (connectionInfo st).
Proof.
  intros H0 Hh. unfold fetchAndProcessBlock. rewrite Hh, H0. done.
Qed.

Lemma first_fetch_sets_cursor_witness :
  lastBlockNumber
    (fetchAndProcessBlock somniaTestnet 1000
       (headReply 100 (sampleBlock 100 "0x9" 2))
       (initialEngine http somniaTestnet)) = 100 ∧
  streams
    (fetchAndProcessBlock somniaTestnet 1000
       (headReply 100 (sampleBlock 100 "0x9" 2))
       (initialEngine http somniaTestnet)) = [].
Proof.
  destruct (first_fetch_sets_cursor somniaTestnet 1000
              (headReply 100 (sampleBlock 100 "0x9" 2))
              (initialEngine http somniaTestnet) 100 eq_refl eq_refl)
    as (H1 & H2 & _).
  split; [exact H1 | exact H2].
Defined.





(** ** The activity log *)

Lemma logStream_consistent time st s :
  logConsistent st → logConsistent (logStream time st s).
Proof.
  intros [Hnd Hin]. unfold logStream. case_decide as Hk; [done |].
  split; unfold entryKeys in *; simpl.
  - apply NoDup_cons. split; [| done]. intros H. by apply Hk, Hin.
  - intros k [->|H]%elem_of_cons.
    + apply elem_of_union. left. by apply elem_of_singleton.
    + apply elem_of_union. right. by apply Hin.
Qed.

Lemma logEach_consistent times i streams st :
  logConsistent st → logConsistent (logEach times i streams st).
Proof.
  revert i st. induction streams as [|s r IH]; intros i st H; simpl;
    [done |].
  by apply IH, logStream_consistent.
Qed.

Lemma logEffect_consistent times streams st :
  logConsistent st → logConsistent (logEffect times streams st).
Proof.
  intros H. apply (logEach_consistent times 0%nat streams) in H.
  unfold logEffect. destruct (_ >? 50); [| done].
  destruct H as [Hnd Hin]. split; unfold entryKeys in *; simpl.
  - rewrite fmap_take. eapply sublist_NoDup; [done | apply sublist_take].
  - intros k Hk. apply Hin. rewrite fmap_take in Hk.
    by apply (subseteq_take 50) in Hk.
Qed.

Lemma logEffect_length times streams st :
  Z.of_nat (length (logEntries (logEffect times streams st))) ≤ 50.
Proof.
  unfold logEffect.
  destruct (Z.gtb_spec
    (Z.of_nat (length (logEntries (logEach times 0 streams st)))) 50);
    simpl; [| done].
  rewrite length_take. lia.
Qed.

Lemma runLog_snoc renders r :
  runLog (renders ++ [r]) = logEffect r.1 r.2 (runLog renders).
Proof. unfold runLog. by rewrite fold_left_app. Qed.

(** X16.  The activity log never holds more than 50 entries after its
    effect has run, whatever it held before, and over any sequence of
    renders from the empty log no event key (id and status) occurs twice in
    it: a packet is logged at most once per stage. *)
Theorem log_bounded_and_distinct :
  (∀ times streams st,
     Z.of_nat (length (logEntries (logEffect times streams st))) ≤ 50) ∧
  (∀ renders,
     NoDup (entryKeys (runLog renders)) ∧
     Z.of_nat (length (logEntries (runLog renders))) ≤ 50).
Proof.
  split; [apply logEffect_length |]. intros renders.
  assert (logConsistent (runLog renders)) as [H _].
  { induction renders as [|r renders IH] using rev_ind.
    - split; [apply NoDup_nil_2 | by intros k ?%elem_of_nil].
    - rewrite runLog_snoc. by apply logEffect_consistent. }
  split; [done |].
  destruct renders as [|r renders _] using rev_ind; [simpl; lia |].
  rewrite runLog_snoc. apply logEffect_length.
Qed.

Lemma logStream_logged time st s :
  loggedEvents st ⊆ loggedEvents (logStream time st s) ∧
  eventKey s ∈ loggedEvents (logStream time st s).
Proof. unfold logStream. case_decide; simpl; set_solver. Qed.

Lemma logEach_logged times i streams st :
  loggedEvents st ⊆ loggedEvents (logEach times i streams st) ∧
  ∀ s, s ∈ streams → eventKey s ∈ loggedEvents (logEach times i streams st).
Proof.
  revert i st. induction streams as [|x r IH]; intros i st; simpl.
  - split; [done | by intros s ?%elem_of_nil].
  - destruct (IH (S i) (logStream (times i) st x)) as [Hsub Hall].
    destruct (logStream_logged (times i) st x) as [Hsub' Hx].
    split; [by etrans |].
    intros s [->|Hs]%elem_of_cons; [by apply Hsub | auto].
Qed.

Lemma logEach_all_logged times i streams st :
  (∀ s, s ∈ streams → eventKey s ∈ loggedEvents st) →
  logEach times i streams st = st.
Proof.
  revert i st. induction streams as [|x r IH]; intros i st H; simpl;
    [done |].
  assert (logStream (times i) st x = st) as ->.
  { unfold logStream. rewrite decide_True; [done |]. apply H. left. }
  apply IH. intros s Hs. apply H. by right.
Qed.

(** X17.  After the effect of the activity log every packet of the render
    is marked as logged in its present stage, nothing that was marked is
    unmarked, and running the effect again on the same packets, at any
    later clock time, changes nothing. *)
Theorem log_effect_idempotent (times times' : nat → string)
    (streams : list StreamPacket) (st : LogState) :
  (∀ s, s ∈ streams →
        eventKey s ∈ loggedEvents (logEffect times streams st)) ∧
  loggedEvents st ⊆ loggedEvents (logEffect times streams st) ∧
  logEffect times' streams (logEffect times streams st)
    = logEffect times streams st.
Proof.
  destruct (logEach_logged times 0%nat streams st) as [Hsub Hall].
  assert (loggedEvents (logEffect times streams st)
          = loggedEvents (logEach times 0 streams st)) as Hl.
  { unfold logEffect. by destruct (_ >? 50). }
  split; [intros s Hs; rewrite Hl; by apply Hall |].
  split; [by rewrite Hl |].
  unfold logEffect at 1.
  rewrite logEach_all_logged
    by (intros s Hs; rewrite Hl; by apply Hall).
  pose proof (logEffect_length times streams st).
  by destruct (Z.gtb_spec
    (Z.of_nat (length (logEntries (logEffect times streams st)))) 50);
    [lia |].
Qed.

Lemma log_effect_idempotent_witness :
  eventKey (samplePacket "0xa0" indexed 1000 1400)
    ∈ loggedEvents
        (logEffect (λ _, "12:00:00")
           [samplePacket "0xa0" indexed 1000 1400] emptyLog).
Proof.
  apply (proj1 (log_effect_idempotent (λ _, "12:00:00") (λ _, "12:00:01")
                  [samplePacket "0xa0" indexed 1000 1400] emptyLog)).
  left.
Defined.

(** ** The grid of capsules *)

Lemma NoDup_keys_set {V} k (v : V) m :
  NoDup (JsMap.keys m) → NoDup (JsMap.keys (JsMap.set k v m)).
Proof.
  intros H. destruct (decide (k ∈ JsMap.keys m)) as [Hin|Hnin].
  - by rewrite keys_set_present.
  - rewrite set_fresh by done. unfold JsMap.keys in *. rewrite fmap_app.
    apply NoDup_app. split; [done |]. split; [| apply NoDup_singleton].
    by intros k' Hk' ->%list_elem_of_singleton.
Qed.

Lemma keys_set_iff {V} k (v : V) m k' :
  k' ∈ JsMap.keys (JsMap.set k v m) ↔ k' = k ∨ k' ∈ JsMap.keys m.
Proof.
  destruct (decide (k ∈ JsMap.keys m)) as [Hin|Hnin].
  - rewrite keys_set_present by done. split; [auto |].
    by intros [->|?].
  - rewrite set_fresh by done. unfold JsMap.keys. rewrite fmap_app.
    csimpl. rewrite elem_of_app, list_elem_of_singleton. tauto.
Qed.

Lemma lastWithId_snoc l v x :
  lastWithId l v → id x ≠ id v → lastWithId (l ++ [x]) v.
Proof.
  intros (l1 & l2 & -> & Hl2) Hne. exists l1, (l2 ++ [x]).
  split; [by rewrite <- app_assoc |].
  rewrite ids_snoc. intros [?|?%list_elem_of_singleton]%elem_of_app;
    [done | congruence].
Qed.

Lemma uniqueSeen_inv l :
  NoDup (JsMap.keys (uniqueSeen l)) ∧
  (∀ k, k ∈ JsMap.keys (uniqueSeen l) ↔ k ∈ ids l) ∧
  (∀ k v, (k, v) ∈ uniqueSeen l → id v = k ∧ lastWithId l v).
Proof.
  induction l as [|x l (Hnd & Hkeys & Hent)] using rev_ind.
  - split; [apply NoDup_nil_2 |]. split; [done |].
    by intros k v ?%elem_of_nil.
  - unfold uniqueSeen in *. rewrite fold_left_app. simpl.
    split; [by apply NoDup_keys_set |]. split.
    + intros k. rewrite keys_set_iff, ids_snoc, elem_of_app,
        list_elem_of_singleton, Hkeys. tauto.
    + intros k v [[-> ->]|[Hin Hne]]%elem_of_set; [| | done].
      * split; [done |]. exists l, []. split; [done |].
        by intros ?%elem_of_nil.
      * apply Hent in Hin as [<- Hlast]. split; [done |].
        by apply lastWithId_snoc.
Qed.

Lemma uniqueStreams_ids l : ids (uniqueStreams l) = JsMap.keys (uniqueSeen l).
Proof.
  destruct (uniqueSeen_inv l) as (_ & _ & Hent).
  unfold uniqueStreams, ids, JsMap.values, JsMap.keys. fold (uniqueSeen l).
  rewrite <- list_fmap_compose.
  apply Forall_fmap_ext, Forall_forall. intros [k v] Hin. simpl.
  by apply Hent in Hin as [? ?].
Qed.

Lemma uniqueSeen_NoDup l :
  NoDup (ids l) → uniqueSeen l = (λ p, (id p, p)) <$> l.
Proof.
  induction l as [|x l IH] using rev_ind; [done |].
  rewrite ids_snoc. intros (Hl & Hx & _)%NoDup_app.
  unfold uniqueSeen in *. rewrite fold_left_app. simpl. rewrite IH by done.
  rewrite set_fresh, fmap_app; [done |].
  unfold JsMap.keys. rewrite <- list_fmap_compose. intros Hin.
  apply (Hx _ Hin). left.
Qed.

(** X18.  The safety deduplication of the grid keeps one packet per id, in
    the order of the first occurrences; the packet it keeps is the last one
    with that id (not the most advanced one, as the engine's
    deduplication does); on a collection with distinct ids, such as every
    collection the engine produces, it changes nothing. *)
Theorem uniqueStreams_keeps_last (l : list StreamPacket) :
  NoDup (ids (uniqueStreams l)) ∧
  (∀ k, k ∈ ids (uniqueStreams l) ↔ k ∈ ids l) ∧
  (∀ p, p ∈ uniqueStreams l → lastWithId l p) ∧
  (NoDup (ids l) → uniqueStreams l = l) ∧
  (∀ cfg ticks, uniqueStreams (runTicks cfg ticks [])
                = runTicks cfg ticks []).
Proof.
  destruct (uniqueSeen_inv l) as (Hnd & Hkeys & Hent).
  assert (∀ l', NoDup (ids l') → uniqueStreams l' = l') as Hid.
  { intros l' H. unfold uniqueStreams, JsMap.values. fold (uniqueSeen l').
    rewrite uniqueSeen_NoDup by done. rewrite <- list_fmap_compose.
    rewrite <- (list_fmap_id l') at 2. by apply list_fmap_ext. }
  split; [by rewrite uniqueStreams_ids |].
  split; [intros k; by rewrite uniqueStreams_ids |].
  split.
  { unfold uniqueStreams, JsMap.values. fold (uniqueSeen l).
    intros p ([k v] & -> & Hin)%list_elem_of_fmap. simpl.
    by apply Hent in Hin as [_ ?]. }
  split; [apply Hid |].
  intros cfg ticks. apply Hid.
  apply (runTicks_wellFormed cfg ticks [] wellFormed_nil).
Qed.

Lemma uniqueStreams_keeps_last_witness :
  uniqueStreams (take 3 scenario4Sample) = take 3 scenario4Sample ∧
  lastWithId
    [samplePacket "0xa0" consolidated 1000 1600;
     samplePacket "0xa0" streamed 1000 1000]
    (samplePacket "0xa0" streamed 1000 1000).
Proof.
  split.
  - apply (uniqueStreams_keeps_last (take 3 scenario4Sample)).
    apply (bool_decide_unpack _). vm_compute. exact I.
  - apply (uniqueStreams_keeps_last
             [samplePacket "0xa0" consolidated 1000 1600;
              samplePacket "0xa0" streamed 1000 1000]).
    vm_compute. left.
Defined.

Lemma findIndex_range k g :
  findIndex k g = -1 ∨ 0 ≤ findIndex k g < Z.of_nat (length g).
Proof.
  induction g as [|s r IH]; simpl; [by left |].
  destruct (String.eqb (id s) k); [right; lia |].
  destruct (Z.eqb_spec (findIndex k r) (-1)); [by left | right; lia].
Qed.

Lemma findIndex_lookup k g :
  findIndex k g ≠ -1 →
  ∃ s, g !! Z.to_nat (findIndex k g) = Some s ∧ id s = k.
Proof.
  induction g as [|s r IH]; simpl; [done |].
  destruct (String.eqb_spec (id s) k) as [Heq|Hne].
  - intros _. by exists s.
  - destruct (Z.eqb_spec (findIndex k r) (-1)) as [|Hn]; [done |].
    intros _. destruct (IH Hn) as (s' & Hs' & Hid). exists s'.
    split; [| done].
    destruct (findIndex_range k r) as [?|[? _]]; [done |].
    replace (Z.to_nat (findIndex k r + 1)) with (S (Z.to_nat (findIndex k r)))
      by lia.
    done.
Qed.

Lemma findIndex_found k g : k ∈ ids g → findIndex k g ≠ -1.
Proof.
  induction g as [|s r IH]; simpl; [by intros ?%elem_of_nil |].
  unfold ids. csimpl. intros [-> |Hin]%elem_of_cons.
  - by rewrite String.eqb_refl.
  - destruct (String.eqb (id s) k); [done |].
    destruct (Z.eqb_spec (findIndex k r) (-1)) as [E|E];
      [by apply IH in Hin |].
    destruct (findIndex_range k r) as [?|[? _]]; [done | lia].
Qed.

Lemma placeCapsule_index cols u s :
  NoDup (ids u) → s ∈ u →
  let g := streamsByStatus u (status s) in
  let i := findIndex (id s) g in
  0 ≤ i < Z.of_nat (length g) ∧ g !! Z.to_nat i = Some s ∧
  placeCapsule cols u s =
    Some (getPosition cols (status s) i,
          if bool_decide (status s = finalized) && (i >? 11) then 0 else 1).
Proof.
  intros Hnd Hs g i.
  assert (s ∈ g) as Hg by (by apply list_elem_of_filter).
  assert (i ≠ -1) as Hi.
  { apply findIndex_found. by apply (list_elem_of_fmap_2 id). }
  destruct (findIndex_range (id s) g) as [?|Hr]; [done |].
  destruct (findIndex_lookup (id s) g Hi) as (s' & Hs' & Hid).
  split; [done |]. split.
  - fold i in Hs'. rewrite Hs'. f_equal.
    apply (NoDup_ids_inj u); [done | | done | done].
    apply list_elem_of_lookup_2 in Hs'.
    by apply list_elem_of_filter in Hs' as [_ ?].
  - unfold placeCapsule. fold g. fold i.
    by destruct (Z.eqb_spec i (-1)).
Qed.

Lemma baseY_inj s1 s2 : baseY s1 = baseY s2 → s1 = s2.
Proof. destruct s1, s2; simpl; (done || lia). Qed.

Lemma pos_left_inj cols c1 c2 :
  cols = 1 ∨ cols = 2 ∨ cols = 4 →
  0 ≤ c1 < cols → 0 ≤ c2 < cols →
  (Number c1 * (100 / Number cols) + 100 / Number cols / 2)%float
  = (Number c2 * (100 / Number cols) + 100 / Number cols / 2)%float →
  c1 = c2.
Proof.
  intros Hc H1 H2 H.
  assert (c1 = 0 ∨ c1 = 1 ∨ c1 = 2 ∨ c1 = 3) as Hc1 by lia.
  assert (c2 = 0 ∨ c2 = 1 ∨ c2 = 2 ∨ c2 = 3) as Hc2 by lia.
  destruct Hc as [-> |[-> | ->]];
    destruct Hc1 as [-> |[-> |[-> | ->]]]; try lia;
    destruct Hc2 as [-> |[-> |[-> | ->]]]; try lia; try reflexivity;
    apply (f_equal Prim2SF) in H; vm_compute in H; discriminate.
Qed.

(** X19.  Every packet of the deduplicated collection gets a place in the
    grid (the guard for a missing index never fires), at the index it has
    among the packets of its stage, and no two packets get the same
    position, for each of the three layouts (1, 2 or 4 columns). *)
Theorem capsules_do_not_overlap (isMobile isTablet : bool)
    (unique : list StreamPacket) :
  NoDup (ids unique) →
  (∀ s, s ∈ unique →
        is_Some (placeCapsule (columns isMobile isTablet) unique s)) ∧
  (∀ s1 s2 p1 p2,
     s1 ∈ unique → s2 ∈ unique →
     placeCapsule (columns isMobile isTablet) unique s1 = Some p1 →
     placeCapsule (columns isMobile isTablet) unique s2 = Some p2 →
     p1.1 = p2.1 → s1 = s2).
Proof.
  intros Hnd. set (cols := columns isMobile isTablet).
  assert (cols = 1 ∨ cols = 2 ∨ cols = 4) as Hcols.
  { unfold cols, columns. destruct isMobile, isTablet; auto. }
  split.
  { intros s Hs.
    destruct (placeCapsule_index cols unique s Hnd Hs) as (_ & _ & ->).
    done. }
  intros s1 s2 p1 p2 Hs1 Hs2 Hp1 Hp2 Heq.
  destruct (placeCapsule_index cols unique s1 Hnd Hs1) as (Hr1 & Hl1 & E1).
  destruct (placeCapsule_index cols unique s2 Hnd Hs2) as (Hr2 & Hl2 & E2).
  rewrite E1 in Hp1. rewrite E2 in Hp2.
  injection Hp1 as <-. injection Hp2 as <-. simpl in Heq.
  set (i1 := findIndex (id s1) (streamsByStatus unique (status s1))) in *.
  set (i2 := findIndex (id s2) (streamsByStatus unique (status s2))) in *.
  unfold getPosition in Heq. injection Heq as Hleft Hbase Htop.
  apply baseY_inj in Hbase. rewrite Hbase in *.
  assert (i1 / cols = i2 / cols) as Hrow.
  { case_decide; lia. }
  assert (Z.rem i1 cols = Z.rem i2 cols) as Hcol.
  { apply (pos_left_inj cols); [done | | | done].
    - rewrite Z.rem_mod_nonneg by lia. apply Z.mod_pos_bound. lia.
    - rewrite Z.rem_mod_nonneg by lia. apply Z.mod_pos_bound. lia. }
  assert (i1 = i2) as Hi.
  { rewrite !Z.rem_mod_nonneg in Hcol by lia.
    rewrite (Z.div_mod i1 cols), (Z.div_mod i2 cols) by lia.
    by rewrite Hrow, Hcol. }
  subst i1 i2. rewrite Hi in Hl1. congruence.
Qed.

Lemma capsules_do_not_overlap_witness :
  is_Some (placeCapsule (columns false false) (take 6 scenario4Sample)
             (samplePacket "0xs4" streamed 5000 5000)).
Proof.
  assert (NoDup (ids (take 6 scenario4Sample))) as H.
  { apply (bool_decide_unpack _). vm_compute. exact I. }
  apply (proj1 (capsules_do_not_overlap false false
                  (take 6 scenario4Sample) H)).
  vm_compute. do 4 right. left.
Defined.

(** X20.  At most 12 Finalized capsules are shown: a Finalized packet is
    shown exactly when its index among the Finalized packets is at most 11,
    so the shown ones are among the first 12 of their stage. *)
Theorem at_most_twelve_finalized_shown (cols : Z)
    (unique : list StreamPacket) :
  NoDup (ids unique) →
  (∀ s, s ∈ unique → status s = finalized →
        (capsuleShown cols unique s ↔
         findIndex (id s) (streamsByStatus unique finalized) ≤ 11)) ∧
  (∀ s, s ∈ unique → status s ≠ finalized → capsuleShown cols unique s) ∧
  (∀ shown, NoDup shown →
     (∀ s, s ∈ shown → s ∈ unique ∧ status s = finalized ∧
                        capsuleShown cols unique s) →
     (length shown ≤ 12)%nat).
Proof.
  intros Hnd.
  assert (∀ s, s ∈ unique → status s = finalized →
        (capsuleShown cols unique s ↔
         findIndex (id s) (streamsByStatus unique finalized) ≤ 11)) as Hiff.
  { intros s Hs Hf. unfold capsuleShown.
    destruct (placeCapsule_index cols unique s Hnd Hs) as (_ & _ & ->).
    simpl. rewrite Hf, bool_decide_eq_true_2 by done. simpl.
    destruct (Z.gtb_spec
      (findIndex (id s) (streamsByStatus unique finalized)) 11);
      split; (done || lia). }
  split; [done |]. split.
  { intros s Hs Hf. unfold capsuleShown.
    destruct (placeCapsule_index cols unique s Hnd Hs) as (_ & _ & ->).
    simpl. by rewrite bool_decide_eq_false_2. }
  intros shown Hndshown Hall.
  transitivity (length (take 12 (streamsByStatus unique finalized)));
    [| rewrite length_take; lia].
  apply submseteq_length, NoDup_submseteq; [done |].
  intros s Hs. destruct (Hall s Hs) as (Hu & Hf & Hshown).
  apply Hiff in Hshown; [| done | done].
  destruct (placeCapsule_index cols unique s Hnd Hu) as ([H0 _] & Hl & _).
  rewrite Hf in *.
  apply elem_of_take. eexists. split; [exact Hl | lia].
Qed.


(** X21.  The fallback poller resets the connection status on every
    successful poll: whenever the head fetch returns and the block fetch,
    if one is made, returns too, the status is polling, the error message
    is cleared and the time of the poll is recorded, whether or not there
    was a new block. *)
Theorem poll_clears_error (cfg : NetworkConfig) (now : Z)
    (src : BlockSource) (st : Engine) (head : Z) :
  getBlockNumber src = Returns head →
  lastBlockNumber st = 0 ∨ head ≤ lastBlockNumber st ∨
    (∃ b, getBlock src head = Returns b) →
  conn_status (connectionInfo (pollBlocks cfg now src st)) = polling ∧
  conn_error (connectionInfo (pollBlocks cfg now src st)) = None ∧
  conn_lastBlockTime (connectionInfo (pollBlocks cfg now src st))
    = Some now.
Proof.
  unfold pollBlocks. intros -> Hc.
  destruct (Z.eqb_spec (lastBlockNumber st) 0); [done |].
  destruct (Z.gtb_spec head (lastBlockNumber st)); [| done].
  destruct Hc as [?|[?|[b ->]]]; [done | lia | done].
Qed.

Lemma poll_clears_error_witness :
  conn_status
    (connectionInfo
       (pollBlocks somniaTestnet 10000
          (headReply 101 (sampleBlock 101 "0xa" 3)) engineAfterError))
  = polling ∧
  conn_error
    (connectionInfo
       (pollBlocks somniaTestnet 10000
          (headReply 101 (sampleBlock 101 "0xa" 3)) engineAfterError))
  = None.
Proof.
  destruct (poll_clears_error somniaTestnet 10000
              (headReply 101 (sampleBlock 101 "0xa" 3)) engineAfterError
              101 eq_refl) as (H1 & H2 & _).
  - right. left. vm_compute. discriminate.
  - split; [exact H1 | exact H2].
Defined.

(** X22.  A block notification of the watching hook never reports a
    failure: after [onBlock] the status is connected, the error message is
    cleared and the cursor is untouched, also when the fetch of the full
    block throws; in that case the collection is unchanged, and a block
    without transactions leaves it unchanged too. *)
Theorem onBlock_hides_fetch_failure (cfg : NetworkConfig) (now number : Z)
    (src : BlockSource) (st : Engine) :
  conn_status (connectionInfo (onBlock cfg now number src st)) = connected ∧
  conn_error (connectionInfo (onBlock cfg now number src st)) = None ∧
  conn_lastBlockTime (connectionInfo (onBlock cfg now number src st))
    = Some now ∧
  lastBlockNumber (onBlock cfg now number src st) = lastBlockNumber st ∧
  (∀ message, getBlock src number = Throws message →
     streams (onBlock cfg now number src st) = streams st) ∧
  (∀ b, getBlock src number = Returns b → blk_transactions b = [] →
     streams (onBlock cfg now number src st) = streams st).
Proof.
  unfold onBlock. destruct (getBlock src number) as [m|b] eqn:E; simpl.
  - repeat split; done.
  - repeat split; try done. intros b' [= <-] Hb.
    unfold ingestBlock, txsToShow. simpl. by rewrite Hb.
Qed.

Lemma onBlock_hides_fetch_failure_witness :
  streams (onBlock somniaTestnet 7000 102 (blockFailure 102 "timeout")
             engineAt101) = streams engineAt101 ∧
  conn_status
    (connectionInfo
       (onBlock somniaTestnet 7000 102 (blockFailure 102 "timeout")
          engineAt101)) = connected.
Proof.
  destruct (onBlock_hides_fetch_failure somniaTestnet 7000 102
              (blockFailure 102 "timeout") engineAt101)
    as (H1 & _ & _ & _ & H5 & _).
  split; [exact (H5 "timeout" eq_refl) | exact H1].
Defined.

(** X23.  The fallback from watching to polling loses no packet: when the
    watch reports an error (and no poll has set the cursor yet) the
    collection is kept as it is and the transport becomes http; if the
    first poll succeeds the cursor is the head, the status is polling and
    the error message is cleared; if it fails the status is error with the
    message of the poll. *)
Theorem fallback_keeps_packets (message : string) (cfg : NetworkConfig)
    (now : Z) (src : BlockSource) (st : Engine) :
  lastBlockNumber st = 0 →
  streams (onWatchError message cfg now src st) = streams st ∧
  conn_method (connectionInfo (onWatchError message cfg now src st))
    = http ∧
  (∀ head, getBlockNumber src = Returns head →
     lastBlockNumber (onWatchError message cfg now src st) = head ∧
     conn_status (connectionInfo (onWatchError message cfg now src st))
       = polling ∧
     conn_error (connectionInfo (onWatchError message cfg now src st))
       = None) ∧
  (∀ message', getBlockNumber src = Throws message' →
     lastBlockNumber (onWatchError message cfg now src st) = 0 ∧
     conn_status (connectionInfo (onWatchError message cfg now src st))
       = error ∧
     conn_error (connectionInfo (onWatchError message cfg now src st))
       = Some message').
Proof.
  intros H0. unfold onWatchError, setupPolling, pollBlocks. simpl.
  rewrite H0. destruct (getBlockNumber src) as [m|n]; simpl.
  - split; [done |]. split; [done |]. split; [done |].
    by intros m' [= <-].
  - split; [done |]. split; [done |]. split; [| done].
    by intros n' [= <-].
Qed.

Lemma fallback_keeps_packets_witness :
  streams
    (onWatchError "socket closed" somniaTestnet 7000
       (headReply 105 (sampleBlock 105 "0xe" 2))
       (onBlock somniaTestnet 4000 101
          (headReply 101 (sampleBlock 101 "0xa" 3))
          (initialEngine none somniaTestnet)))
  = streams
      (onBlock somniaTestnet 4000 101
         (headReply 101 (sampleBlock 101 "0xa" 3))
         (initialEngine none somniaTestnet)).
Proof.
  exact (proj1 (fallback_keeps_packets "socket closed" somniaTestnet 7000
                  (headReply 105 (sampleBlock 105 "0xe" 2))
                  (onBlock somniaTestnet 4000 101
                     (headReply 101 (sampleBlock 101 "0xa" 3))
                     (initialEngine none somniaTestnet))
                  eq_refl)).
Defined.

(** X24.  The start of the watching hook never leaves the engine
    connecting and creates no packet: the transport is websocket exactly
    when the network supports it and watchBlocks did not throw, and http
    otherwise; the collection is empty after the start. *)
Theorem start_chooses_transport (cfg : NetworkConfig)
    (supportsWebSocket : bool) (now : Z) (watch : Reply unit)
    (src : BlockSource) :
  streams (startConnection cfg supportsWebSocket now watch src) = [] ∧
  conn_status
    (connectionInfo (startConnection cfg supportsWebSocket now watch src))
    ≠ connecting ∧
  conn_method
    (connectionInfo (startConnection cfg supportsWebSocket now watch src))
  = (if supportsWebSocket
     then match watch with Returns _ => websocket | Throws _ => http end
     else http).
Proof.
  unfold startConnection, setupWebSocket, setupPolling, pollBlocks.
  destruct supportsWebSocket; [destruct watch as [m|u] |]; simpl;
    try done; destruct (getBlockNumber src); simpl; done.
Qed.

Lemma applyEngineTick_labels cfg st t :
  networkName (connectionInfo (applyEngineTick cfg st t))
    = networkName (connectionInfo st) ∧
  rpcUrl (connectionInfo (applyEngineTick cfg st t))
    = rpcUrl (connectionInfo st).
Proof.
  destruct t; simpl; [| | | | done].
  - unfold fetchAndProcessBlock.
    destruct (getBlockNumber src); simpl; [done |].
    destruct (_ =? 0); simpl; [done |]. destruct (_ >? _); simpl; [| done].
    by destruct (getBlock src a).
  - unfold pollBlocks.
    destruct (getBlockNumber src); simpl; [done |].
    destruct (_ =? 0); simpl; [done |]. destruct (_ >? _); simpl; [| done].
    by destruct (getBlock src a).
  - unfold onBlock. by destruct (getBlock src number).
  - unfold onWatchError, setupPolling, pollBlocks. simpl.
    destruct (getBlockNumber src); simpl; [done |].
    destruct (_ =? 0); simpl; [done |]. destruct (_ >? _); simpl; [| done].
    by destruct (getBlock src a).
Qed.

(** X25.  No tick of an engine changes the network name or the RPC URL of
    the connection info: over every run they are the ones of the network
    configuration the engine was started with. *)
Theorem engine_labels_constant (cfg : NetworkConfig) (m : ConnectionMethod)
    (ticks : list EngineTick) :
  networkName (connectionInfo (runEngine cfg ticks (initialEngine m cfg)))
    = chainName cfg ∧
  rpcUrl (connectionInfo (runEngine cfg ticks (initialEngine m cfg)))
    = cfg_rpcUrl cfg.
Proof.
  induction ticks as [|t ticks [IH1 IH2]] using rev_ind; [done |].
  rewrite runEngine_snoc.
  destruct (applyEngineTick_labels cfg
              (runEngine cfg ticks (initialEngine m cfg)) t) as [-> ->].
  done.
Qed.

(** X26.  A new head whose block has no transactions moves the cursor to
    the head and reports success without touching the collection, in the
    polling-only hook (status connected) and in the fallback poller
    (status polling). *)
Theorem empty_block_moves_cursor (cfg : NetworkConfig) (now : Z)
    (src : BlockSource) (st : Engine) (head : Z) (block : Block) :
  lastBlockNumber st ≠ 0 → lastBlockNumber st < head →
  getBlockNumber src = Returns head → getBlock src head = Returns block →
  blk_transactions block = [] →
  fetchAndProcessBlock cfg now src st =
    {| streams := streams st;
       connectionInfo := withStatusCleared connected now (connectionInfo st);
       lastBlockNumber := head |} ∧
  pollBlocks cfg now src st =
    {| streams := streams st;
       connectionInfo := withStatusCleared polling now (connectionInfo st);
       lastBlockNumber := head |}.
Proof.
  intros H0 Hlt Hh Hb He.
  unfold fetchAndProcessBlock, pollBlocks. rewrite Hh.
  destruct (Z.eqb_spec (lastBlockNumber st) 0); [done |].
  destruct (Z.gtb_spec head (lastBlockNumber st)); [| lia].
  rewrite Hb. unfold ingestBlock, txsToShow. rewrite He. done.
Qed.

Lemma empty_block_moves_cursor_witness :
  streams (fetchAndProcessBlock somniaTestnet 7000
             (headReply 102 (sampleBlock 102 "0xb" 0)) engineAt101)
  = streams engineAt101 ∧
  lastBlockNumber (fetchAndProcessBlock somniaTestnet 7000
                     (headReply 102 (sampleBlock 102 "0xb" 0)) engineAt101)
  = 102.
Proof.
  assert (lastBlockNumber engineAt101 ≠ 0) as H0
    by (vm_compute; discriminate).
  assert (lastBlockNumber engineAt101 < 102) as Hlt
    by (vm_compute; reflexivity).
  rewrite (proj1 (empty_block_moves_cursor somniaTestnet 7000
                    (headReply 102 (sampleBlock 102 "0xb" 0)) engineAt101
                    102 (sampleBlock 102 "0xb" 0)
                    H0 Hlt eq_refl eq_refl eq_refl)).
  split; reflexivity.
Defined.

(** X27.  A poll looks at the head and at the block of the head only: two
    block sources that agree on the head number and on the block at that
    number give the same engine state, whatever they hold for the blocks
    between the cursor and the head; those blocks are never ingested. *)
Theorem only_head_block_is_read (cfg : NetworkConfig) (now : Z)
    (src src' : BlockSource) (st : Engine) (head : Z) :
  getBlockNumber src = Returns head → getBlockNumber src' = Returns head →
  getBlock src head = getBlock src' head →
  fetchAndProcessBlock cfg now src st = fetchAndProcessBlock cfg now src' st ∧
  pollBlocks cfg now src st = pollBlocks cfg now src' st.
Proof.
  intros H1 H2 Hb. unfold fetchAndProcessBlock, pollBlocks.
  by rewrite H1, H2, Hb.
Qed.

Lemma only_head_block_is_read_witness :
  fetchAndProcessBlock somniaTestnet 7000
    {| getBlockNumber := Returns 105;
       getBlock := λ n, if n =? 105 then Returns (sampleBlock 105 "0xe" 2)
                        else Returns (sampleBlock n "0xd" 3) |}
    engineAt101
  = fetchAndProcessBlock somniaTestnet 7000
      (headReply 105 (sampleBlock 105 "0xe" 2)) engineAt101.
Proof.
  exact (proj1 (only_head_block_is_read somniaTestnet 7000
                  {| getBlockNumber := Returns 105;
                     getBlock := λ n,
                       if n =? 105 then Returns (sampleBlock 105 "0xe" 2)
                       else Returns (sampleBlock n "0xd" 3) |}
                  (headReply 105 (sampleBlock 105 "0xe" 2))
                  engineAt101 105 eq_refl eq_refl eq_refl)).
Defined.

Lemma at_most_twelve_finalized_shown_witness :
  capsuleShown (columns false false) (drop 90 scenario4Sample)
    (samplePacket "0xf3" finalized 1000 1900).
Proof.
  assert (NoDup (ids (drop 90 scenario4Sample))) as H.
  { apply (bool_decide_unpack _). vm_compute. exact I. }
  assert (samplePacket "0xf3" finalized 1000 1900
            ∈ drop 90 scenario4Sample) as Hin
    by (vm_compute; do 8 right; left).
  apply (proj2 (proj1 (at_most_twelve_finalized_shown
                         (columns false false) (drop 90 scenario4Sample) H)
                  (samplePacket "0xf3" finalized 1000 1900) Hin eq_refl)).
  vm_compute. discriminate.
Defined.
